(** * Dependency orchestration of devspace: graph, scheduler, orchestrator

    A shallow embedding of [pkg/devspace/dependency]:
    - the dependency graph (insertion with cycle detection, the two
      traversals, leaf discovery, node removal);
    - the bounded worker pool of [scheduler.go];
    - [handleDependencies] and the entry points of [dependency.go], and
      the provider of [handleDependencies] taken one statement at a time;
    - the change detection of [Dependency.prepare].

    Pointers to nodes are modelled by node IDs into the registry (the
    registry is keyed by the unique ID, so two node pointers are equal
    exactly when their IDs are).  Go recursion that need not terminate is
    modelled with a recursion budget; [None] stands for a call that does
    not return. *)

From Stdlib Require Import ZArith Lia.
From stdpp Require Import base option list strings pretty gmap fin_maps.

Open Scope string_scope.
Open Scope list_scope.

(** ** Errors *)

(** The error values that travel through the package.  [Errorf] is an
    error made from a message (also one that arrives from outside with that
    text); [Wrap] is [errors.Wrap]/[errors.Wrapf] around a cause;
    [CyclicError] is the package's [*cyclicError], holding the cycle it
    prints; [ExitStatus] is the interpreter's exit status and
    [ReturnCodeError] the [exit.ReturnCodeError] made from it. *)
Inductive error : Type :=
  | Errorf (msg : string)
  | Wrap (cause : error) (msg : string)
  | CyclicError (cycle : list string)
  | ExitStatus (status : Z)
  | ReturnCodeError (ExitCode : Z).

(** [strings.Join]. *)
Fixpoint Join (elems : list string) (sep : string) : string :=
  match elems with
  | [] => ""
  | [e] => e
  | e :: rest => e +:+ sep +:+ Join rest sep
  end.

Definition newline : string := String (Ascii.ascii_of_nat 10) EmptyString.

(** The text of a cycle error, as [graph_test.go] expects it: the prefix,
    a line break, then the cycle with one ID per line. *)
Definition cyclicError_Error (cycle : list string) : string :=
  "Cyclic dependency found: " +:+ newline +:+ Join cycle newline.

(** [Error()]: the text of an error.  The text of a [ReturnCodeError] is
    defined in package exit and never asked for in this package; it is left
    empty. *)
Fixpoint error_Error (e : error) : string :=
  match e with
  | Errorf msg => msg
  | Wrap cause msg => msg +:+ ": " +:+ error_Error cause
  | CyclicError cycle => cyclicError_Error cycle
  | ExitStatus status => "exit status " +:+ pretty status
  | ReturnCodeError _ => ""
  end.

(** [interp.IsExitStatus]. *)
Definition IsExitStatus (e : error) : option Z :=
  match e with
  | ExitStatus status => Some status
  | _ => None
  end.

(** ** The graph *)

Module Graph.
Section WithPayload.

Context {D : Type}.

(** A node: its ID, its payload, the ordered child references and the
    parent back-references.  References are IDs into the registry. *)
Record node : Type := mkNode {
  ID : string;
  Dependency : D;
  childs : list string;
  parents : list string
}.

Record graph : Type := mkGraph {
  Root : string;
  Nodes : gmap string node
}.

Definition newNode (id : string) (data : D) : node :=
  {| ID := id; Dependency := data; childs := []; parents := [] |}.

Definition newGraph (root : node) : graph :=
  {| Root := ID root; Nodes := {[ ID root := root ]} |}.

Definition addChild (c : string) (n : node) : node :=
  {| ID := ID n; Dependency := Dependency n;
     childs := childs n ++ [c]; parents := parents n |}.

Definition addParent (p : string) (n : node) : node :=
  {| ID := ID n; Dependency := Dependency n;
     childs := childs n; parents := parents n ++ [p] |}.

Definition dropChild (c : string) (n : node) : node :=
  {| ID := ID n; Dependency := Dependency n;
     childs := filter (λ x, x ≠ c) (childs n); parents := parents n |}.

(** Links [from] to [to]: the child reference and the back-reference. *)
Definition link (from to : string) (g : graph) : graph :=
  {| Root := Root g;
     Nodes := alter (addParent from) to (alter (addChild to) from (Nodes g)) |}.

(** Modelled from the spec: [addEdge] of graph.go, which is not among the
    sources.  It links two registered nodes without any cycle check and
    fails when either ID is absent from the registry. *)
Definition addEdge (fromID toID : string) (g : graph) : graph * option error :=
  match Nodes g !! fromID, Nodes g !! toID with
  | Some _, Some _ => (link fromID toID g, None)
  | None, _ => (g, Some (Errorf ("node not found: " +:+ fromID)))
  | _, None => (g, Some (Errorf ("node not found: " +:+ toID)))
  end.

(** The first result of trying [f] on each element in order; [None] when a
    call does not return. *)
Fixpoint firstPath (f : string → option (option (list string)))
    (cs : list string) : option (option (list string)) :=
  match cs with
  | [] => Some None
  | c :: rest =>
      match f c with
      | None => None
      | Some (Some p) => Some (Some p)
      | Some None => firstPath f rest
      end
  end.

(** Modelled from the spec: [findFirstPath] of graph.go, which is not among
    the sources.  A depth-first search over child edges, siblings in
    insertion order; the first path from [start] to [target], both
    included, or no path.  The outer [None] is an exhausted budget. *)
Fixpoint findFirstPath (fuel : nat) (g : graph) (start target : string)
    : option (option (list string)) :=
  match fuel with
  | 0 => None
  | S fuel' =>
      if decide (start = target) then Some (Some [start])
      else
        match Nodes g !! start with
        | None => Some None
        | Some n =>
            match firstPath (λ c, findFirstPath fuel' g c target) (childs n) with
            | None => None
            | Some None => Some None
            | Some (Some p) => Some (Some (start :: p))
            end
        end
  end.

(** Modelled from the spec: [insertNodeAt] of graph.go, which is not among
    the sources.  The parent must be registered; an existing child is
    reused, otherwise a new node is registered; a path from the child down
    to the parent is a cycle, reported as the parent followed by that path;
    otherwise the edge is added and the node returned. *)
Definition insertNodeAt (fuel : nat) (parentID childID : string) (data : D)
    (g : graph) : option (graph * (option node * option error)) :=
  match Nodes g !! parentID with
  | None => Some (g, (None, Some (Errorf ("node not found: " +:+ parentID))))
  | Some _ =>
      let g1 :=
        match Nodes g !! childID with
        | Some _ => g
        | None => {| Root := Root g;
                     Nodes := <[childID := newNode childID data]> (Nodes g) |}
        end in
      match findFirstPath fuel g1 childID parentID with
      | None => None
      | Some (Some path) =>
          Some (g1, (None, Some (CyclicError (parentID :: path))))
      | Some None =>
          let g2 := link parentID childID g1 in
          Some (g2, (Nodes g2 !! childID, None))
      end
  end.

(** *** Traversal *)

Section Search.

Context {St : Type}.

(** What a search returns: the node it stopped at, or an error. *)
Definition found : Type := (option node * option error)%type.

(** A visitor: called once per traversal step, it may change the caller's
    state and answers (stop, error). *)
Definition visitor : Type := node → St → St * (bool * option error).

(** The loop over the children of a node, shared by both traversals: the
    first child whose search stops or fails ends the loop. *)
Fixpoint searchChilds (search : string → St → option (St * found))
    (cs : list string) (s : St) : option (St * found) :=
  match cs with
  | [] => Some (s, (None, None))
  | c :: rest =>
      match search c s with
      | None => None
      | Some (s1, (_, Some err)) => Some (s1, (None, Some err))
      | Some (s1, (Some n, None)) => Some (s1, (Some n, None))
      | Some (s1, (None, None)) => searchChilds search rest s1
      end
  end.

(** Modelled from the spec: [preOrderSearch] of graph.go, which is not
    among the sources.  The node is visited before its children; an error
    of the visitor aborts the traversal, a stop makes the node the result,
    and a traversal that is never stopped finds nothing. *)
Fixpoint preOrderSearch (fuel : nat) (g : graph) (id : string) (visit : visitor)
    (s : St) : option (St * found) :=
  match fuel with
  | 0 => None
  | S fuel' =>
      match Nodes g !! id with
      | None => Some (s, (None, None))
      | Some n =>
          match visit n s with
          | (s1, (_, Some err)) => Some (s1, (None, Some err))
          | (s1, (true, None)) => Some (s1, (Some n, None))
          | (s1, (false, None)) =>
              searchChilds (λ c, preOrderSearch fuel' g c visit) (childs n) s1
          end
      end
  end.

(** Modelled from the spec: [postOrderSearch] of graph.go, which is not
    among the sources.  As [preOrderSearch], with the node visited after
    all of its children. *)
Fixpoint postOrderSearch (fuel : nat) (g : graph) (id : string) (visit : visitor)
    (s : St) : option (St * found) :=
  match fuel with
  | 0 => None
  | S fuel' =>
      match Nodes g !! id with
      | None => Some (s, (None, None))
      | Some n =>
          match searchChilds (λ c, postOrderSearch fuel' g c visit) (childs n) s with
          | None => None
          | Some (s1, (_, Some err)) => Some (s1, (None, Some err))
          | Some (s1, (Some m, None)) => Some (s1, (Some m, None))
          | Some (s1, (None, None)) =>
              match visit n s1 with
              | (s2, (_, Some err)) => Some (s2, (None, Some err))
              | (s2, (true, None)) => Some (s2, (Some n, None))
              | (s2, (false, None)) => Some (s2, (None, None))
              end
          end
      end
  end.

(** What a search that returned tells, for a property [Q] of the state
    that the visits which neither stop nor fail keep: it failed or stopped
    at a visit of a registered node made in a state with [Q], or it went
    through and left a state with [Q]. *)
Definition stopped (g : graph) (visit : visitor) (Q : St → Prop)
    (res : St * found) : Prop :=
  match res with
  | (s1, (_, Some e)) =>
      ∃ k n s0 b, Q s0 ∧ Nodes g !! k = Some n ∧ visit n s0 = (s1, (b, Some e))
  | (s1, (Some n, None)) =>
      ∃ k s0, Q s0 ∧ Nodes g !! k = Some n ∧ visit n s0 = (s1, (true, None))
  | (s1, (None, None)) => Q s1
  end.

End Search.

(** Modelled from the spec: [getNextLeaf] of graph.go, which is not among
    the sources.  The first node in pre-order that has no children. *)
Definition getNextLeaf (fuel : nat) (g : graph) (id : string) : option (option node) :=
  match preOrderSearch fuel g id
          (λ n (_ : unit), (tt, (bool_decide (childs n = []), None))) tt with
  | None => None
  | Some (_, (r, _)) => Some r
  end.

(** Modelled from the spec: [removeNode] of graph.go, which is not among
    the sources.  The node is detached from the child list of every one of
    its parents and deleted from the registry.  The spec does not say when
    the call reports an error, and the orchestrator discards its result, so
    only the graph it leaves is modelled. *)
Definition removeNode (id : string) (g : graph) : graph :=
  match Nodes g !! id with
  | None => g
  | Some n =>
      {| Root := Root g;
         Nodes := delete id
                    (foldr (λ p m, alter (dropChild id) p m) (Nodes g) (parents n)) |}
  end.

(** Modelled from the spec: [len] of graph.go, which is not among the
    sources.  The number of registered nodes, the root not counted. *)
Definition len (g : graph) : nat := size (delete (Root g) (Nodes g)).

(** The IDs in the order a full traversal visits them, collected the way
    [graph_test.go] does: a visitor that appends and never stops. *)
Definition collect : @visitor (list string) :=
  λ n acc, (acc ++ [ID n], (false, None)).

Definition preOrder (fuel : nat) (g : graph) (id : string) : option (list string) :=
  fst <$> preOrderSearch fuel g id collect [].

Definition postOrder (fuel : nat) (g : graph) (id : string) : option (list string) :=
  fst <$> postOrderSearch fuel g id collect [].

(** *** Walks *)

(** A walk from [a]: registered nodes, each a child of the one before. *)
Inductive walk (g : graph) : string → list string → Prop :=
  | walk_one a n : Nodes g !! a = Some n → walk g a [a]
  | walk_cons a n b p :
      Nodes g !! a = Some n → b ∈ childs n → walk g b p → walk g a (a :: p).

(** The node a walk ends at. *)
Definition endOf (p : list string) : string := default "" (last p).

(** The walks from [id] of at most [fuel] nodes, in depth-first order. *)
Fixpoint walksFrom (fuel : nat) (g : graph) (id : string) : list (list string) :=
  match fuel with
  | 0 => []
  | S fuel' =>
      match Nodes g !! id with
      | None => []
      | Some n => [id] :: map (cons id) (flat_map (walksFrom fuel' g) (childs n))
      end
  end.

(** The child edges go down along [rk]: the graph has no cycle, and a
    traversal from [a] needs a budget above [rk a]. *)
Definition ranked (rk : string → nat) (g : graph) : Prop :=
  map_Forall (λ a n, Forall (λ b, rk b < rk a) (childs n)) (Nodes g).

(** The registry files every node under its own ID. *)
Definition keyed (g : graph) : Prop :=
  map_Forall (λ a n, ID n = a) (Nodes g).

(** Every child reference has its back-reference. *)
Definition backReferenced (g : graph) : Prop :=
  map_Forall (λ a n, Forall (λ b, ∃ m, Nodes g !! b = Some m ∧ a ∈ parents m)
                       (childs n)) (Nodes g).

End WithPayload.
Arguments node : clear implicits.
Arguments graph : clear implicits.
End Graph.

Import Graph.

(** ** The graph of graph_test.go *)

Module TestGraph.

Definition fuel : nat := 10.

Definition ins (p c : string) (g : graph unit) : graph unit :=
  match insertNodeAt fuel p c tt g with
  | Some (g', _) => g'
  | None => g
  end.

Definition testGraph : graph unit :=
  ins "rootChild3" "rootChild2"
    (ins "rootChild2Child1" "rootChild2Child1Child1"
      (ins "rootChild2" "rootChild2Child1"
        (ins "root" "rootChild3"
          (ins "root" "rootChild2"
            (ins "root" "rootChild1"
              (ins "does not exits" "rootChild1"
                (newGraph (newNode "root" tt)))))))).

(** A rank for [testGraph]: the longest way down from each node. *)
Definition rank (id : string) : nat :=
  if bool_decide (id = "root") then 4
  else if bool_decide (id = "rootChild3") then 3
  else if bool_decide (id = "rootChild2") then 2
  else if bool_decide (id = "rootChild2Child1") then 1
  else 0.

End TestGraph.


(** ** The scheduler (scheduler.go) *)

Module Scheduler.
Section Pool.

(** The state the provider and the units of work act on, and the units of
    work.  A Go closure is kept as the data it captured ([Work]) and its
    code ([runWork]). *)
Context {St Work : Type}.
Variable runWork : Work → St → St * option error.

(** [next]: the work, or an error; [None] is a call that does not return.
    A [nil] unit of work is [None] in the first component. *)
Definition provider : Type := St → option (St * (option Work * option error)).

Record scheduler : Type := {
  concurrency : Z;
  next : provider
}.

Definition NewScheduler (c : Z) (n : provider) : scheduler :=
  {| concurrency := c; next := n |}.

(** Where one goroutine of [Run] stands: about to call [next], holding a
    unit of work it is about to execute, or returned. *)
Inductive worker : Type :=
  | Fetching
  | Executing (work : Work)
  | Returned (err : option error).

(** The pool: the shared state, the goroutines, the error kept by the
    errgroup (the first non-nil one, set once), and the goroutines' results
    in the order they returned. *)
Record pool : Type := {
  shared : St;
  workers : list worker;
  groupErr : option error;
  returns : list (nat * option error)
}.

(** Goroutine [i] returns [e]. *)
Definition retire (i : nat) (e : option error) (p : pool) (s : St) : pool :=
  {| shared := s;
     workers := <[i := Returned e]> (workers p);
     groupErr := match groupErr p with Some e0 => Some e0 | None => e end;
     returns := returns p ++ [(i, e)] |}.

Definition become (i : nat) (w : worker) (p : pool) (s : St) : pool :=
  {| shared := s; workers := <[i := w]> (workers p);
     groupErr := groupErr p; returns := returns p |}.

(** One step of goroutine [i]: a call of [next], or the execution of the
    unit it holds.  A returned goroutine, or a call that does not return,
    leaves the pool as it is.

    A step runs the whole call of [next], or the whole unit, on the shared
    state: the pools reached by steps are those of the runs of [Run] in
    which no call of [next] and no unit overlaps another.  [Run] itself
    takes no lock around either, so these are all its runs when there is
    one goroutine, and whenever the provider and the units guard what they
    share; the provider of [handleDependencies] does not, and what two
    goroutines can then do in the middle of its call is in module [Race]. *)
Definition step (sch : scheduler) (i : nat) (p : pool) : pool :=
  match workers p !! i with
  | Some Fetching =>
      match next sch (shared p) with
      | None => p
      | Some (s, (_, Some err)) => retire i (Some err) p s
      | Some (s, (None, None)) => retire i None p s
      | Some (s, (Some work, None)) => become i (Executing work) p s
      end
  | Some (Executing work) =>
      match runWork work (shared p) with
      | (s, Some err) => retire i (Some err) p s
      | (s, None) => become i Fetching p s
      end
  | _ => p
  end.

(** The loop of [Run] starts [concurrency] goroutines. *)
Definition start (sch : scheduler) (s : St) : pool :=
  {| shared := s;
     workers := replicate (Z.to_nat (concurrency sch)) Fetching;
     groupErr := None;
     returns := [] |}.

(** The pool after the goroutines took steps in the order [sched]. *)
Definition exec (sch : scheduler) (sched : list nat) (p : pool) : pool :=
  foldl (λ q i, step sch i q) p sched.

Definition isReturned (w : worker) : bool :=
  match w with Returned _ => true | _ => false end.

Definition drained (p : pool) : bool := forallb isReturned (workers p).

(** [Run] under the interleaving [sched]: [Wait] returns once every
    goroutine has returned, with the error the group kept.  [None]: some
    goroutine has not returned by the end of [sched]. *)
Definition Run (sch : scheduler) (sched : list nat) (s : St)
    : option (St * option error) :=
  let p := exec sch sched (start sch s) in
  if drained p then Some (shared p, groupErr p) else None.


End Pool.
Arguments provider : clear implicits.
Arguments scheduler : clear implicits.
Arguments worker : clear implicits.
Arguments pool : clear implicits.
End Scheduler.

(** ** State-passing code *)

(** Code that reads and changes a state [Σ] and yields an [A]. *)
Definition state (Σ A : Type) : Type := Σ → Σ * A.

Definition ret {Σ A : Type} (a : A) : state Σ A := λ s, (s, a).

Definition bind {Σ A B : Type} (m : state Σ A) (k : A → state Σ B) : state Σ B :=
  λ s, let '(s1, a) := m s in k a s1.

Declare Scope state_scope.
Delimit Scope state_scope with state.
Notation "x <- m ;; k" := (bind m (λ x, k))
  (at level 100, m at level 99, k at level 200, right associativity) : state_scope.
Notation "m ;;; k" := (bind m (λ _, k))
  (at level 100, k at level 200, right associativity) : state_scope.

(** ** A dependency and its actions (dependency.go) *)

Module Dep.

(** The fields of [latest.DependencyConfig] the package reads. *)
Record DependencyConfig : Type := {
  Name_ : string;
  SkipBuild : bool
}.

(** The fields of [build.Options] the package reads. *)
Record BuildOptions : Type := {
  MaxConcurrentBuilds : Z
}.

(** The [Dependency] struct.  [localConfig] is [None] for a nil config,
    otherwise it tells whether [Generated()] is non-nil; [generatedSaver]
    tells whether a saver is set.  The clients and controllers are reached
    through the external calls below; [builtImages] and the cache are in
    [Env], keyed by the dependency's ID. *)
Record Dependency : Type := {
  id : string;
  localPath : string;
  localConfig : option bool;
  root : bool;
  dependencyConfig : DependencyConfig;
  generatedSaver : bool
}.

Definition ID (d : Dependency) : string := id d.
Definition Name (d : Dependency) : string := Name_ (dependencyConfig d).
Definition Config (d : Dependency) : option bool := localConfig d.
Definition LocalPath (d : Dependency) : string := localPath d.
Definition Root (d : Dependency) : bool := root d.

(** The calls that leave the package. *)
Inductive Call : Type :=
  | DirectoryExcludes (path : string) (excludes : list string) (recursive : bool)
  | Getwd
  | Chdir (dir : string)
  | EnsureDeployNamespaces (dep : string)
  | CreatePullSecrets (dep : string)
  | BuildControllerBuild (dep : string) (options : BuildOptions)
  | DeployControllerDeploy (dep : string) (forceDeploy : bool)
      (builtImages : gmap string string)
  | DeployControllerRender (dep : string) (builtImages : gmap string string)
  | DeployControllerPurge (dep : string)
  | GeneratedSaverSave (dep : string)
  | CommandExecute (dep : string) (cmd : string) (args : list string).

(** What a call answers: its error and, where it has one, its value. *)
Record Reply : Type := {
  err : option error;
  text : string;
  images : gmap string string
}.

(** What the package does that can be observed from outside, in order:
    the external calls and the writes to the dependency cache. *)
Inductive Event : Type :=
  | Called (c : Call)
  | CacheSet (dep hash : string)
  | CacheDelete (dep : string).

Section WithOutside.

(** Everything outside the package (file system, cluster, registry), and
    how it answers a call. *)
Context {X : Type}.
Variable extern : Call → X → X * Reply.

(** What the actions act on.  [cache] is
    [dependencyCache.GetActive().Dependencies]: every dependency reads and
    writes only the entry of its own ID, so the maps of all dependencies are
    kept as one. *)
Record Env : Type := {
  cache : gmap string string;
  builtImages : gmap string (gmap string string);
  outside : X;
  events : list Event
}.

Local Open Scope state_scope.

Definition call (c : Call) : state Env Reply :=
  λ e, let '(x, r) := extern c (outside e) in
       ({| cache := cache e; builtImages := builtImages e; outside := x;
           events := events e ++ [Called c] |}, r).

Definition cacheGet (dep : string) : state Env string :=
  λ e, (e, default "" (cache e !! dep)).

Definition cacheSet (dep hash : string) : state Env unit :=
  λ e, ({| cache := <[dep := hash]> (cache e); builtImages := builtImages e;
           outside := outside e; events := events e ++ [CacheSet dep hash] |}, tt).

Definition cacheDelete (dep : string) : state Env unit :=
  λ e, ({| cache := delete dep (cache e); builtImages := builtImages e;
           outside := outside e; events := events e ++ [CacheDelete dep] |}, tt).

Definition setBuiltImages (dep : string) (imgs : gmap string string) : state Env unit :=
  λ e, ({| cache := cache e; builtImages := <[dep := imgs]> (builtImages e);
           outside := outside e; events := events e |}, tt).

Definition changeWorkingDirectory (d : Dependency) : state Env (string * option error) :=
  wd <- call Getwd ;;
  match err wd with
  | Some e => ret ("", Some (Wrap e "getwd"))
  | None =>
      cd <- call (Chdir (localPath d)) ;;
      match err cd with
      | Some e => ret ("", Some (Wrap e "change working directory"))
      | None => ret (text wd, None)
      end
  end.

Definition prepare (forceDependencies : bool) (d : Dependency)
    : state Env (string * option error) :=
  h <- call (DirectoryExcludes (localPath d) [".git"; ".devspace"] true) ;;
  match err h with
  | Some e => ret ("", Some (Wrap e "hash directory"))
  | None =>
      recorded <- cacheGet (id d) ;;
      if negb forceDependencies && bool_decide (text h = recorded)
      then ret ("", None)
      else
        cacheSet (id d) (text h) ;;;
        changeWorkingDirectory d
  end.

Definition hasGenerated (d : Dependency) : bool :=
  generatedSaver d && bool_decide (localConfig d = Some true).

Definition buildImages (skipBuild : bool) (buildOptions : BuildOptions)
    (d : Dependency) : state Env (option (gmap string string) * option error) :=
  if negb skipBuild && negb (SkipBuild (dependencyConfig d)) then
    b <- call (BuildControllerBuild (id d) buildOptions) ;;
    match err b with
    | Some e => ret (None, Some e)
    | None =>
        if bool_decide (images b ≠ ∅) && hasGenerated d then
          sv <- call (GeneratedSaverSave (id d)) ;;
          match err sv with
          | Some e =>
              ret (None, Some (Errorf ("Error saving generated config: " +:+
                                         error_Error e)))
          | None =>
              setBuiltImages (id d) (images b) ;;;
              ret (Some (images b), None)
          end
        else
          setBuiltImages (id d) (images b) ;;;
          ret (Some (images b), None)
    end
  else ret (Some ∅, None).

(** The deferred [os.Chdir(currentWorkingDirectory)]: it runs when the
    function returns, and its result is dropped. *)
Definition deferChdir {A : Type} (cwd : string) (body : state Env A) : state Env A :=
  r <- body ;;
  call (Chdir cwd) ;;;
  ret r.

Definition Build (forceDependencies : bool) (buildOptions : BuildOptions)
    (d : Dependency) : state Env (option error) :=
  p <- prepare forceDependencies d ;;
  match p with
  | (_, Some e) => ret (Some e)
  | (currentWorkingDirectory, None) =>
      if bool_decide (currentWorkingDirectory = "") then ret None
      else
        deferChdir currentWorkingDirectory
          (b <- buildImages false buildOptions d ;;
           match b with
           | (_, Some e) => ret (Some e)
           | (_, None) => ret None
           end)
  end.

Definition Deploy (forceDependencies skipBuild skipDeploy forceDeploy : bool)
    (buildOptions : BuildOptions) (d : Dependency) : state Env (option error) :=
  p <- prepare forceDependencies d ;;
  match p with
  | (_, Some e) => ret (Some e)
  | (currentWorkingDirectory, None) =>
      if bool_decide (currentWorkingDirectory = "") then ret None
      else
        deferChdir currentWorkingDirectory
          (ns <- call (EnsureDeployNamespaces (id d)) ;;
           match err ns with
           | Some e =>
               ret (Some (Errorf ("Unable to create namespace: " +:+ error_Error e)))
           | None =>
               call (CreatePullSecrets (id d)) ;;;
               b <- buildImages skipBuild buildOptions d ;;
               match b with
               | (_, Some e) => ret (Some e)
               | (built, None) =>
                   dp <- (if skipDeploy then ret None
                          else r <- call (DeployControllerDeploy (id d) forceDeploy
                                            (default ∅ built)) ;;
                               ret (err r)) ;;
                   match dp with
                   | Some e => ret (Some e)
                   | None =>
                       sv <- call (GeneratedSaverSave (id d)) ;;
                       match err sv with
                       | Some e =>
                           ret (Some (Errorf ("Error saving generated config: " +:+
                                                error_Error e)))
                       | None => ret None
                       end
                   end
               end
           end)
  end.

Definition Render (skipBuild : bool) (buildOptions : BuildOptions)
    (d : Dependency) : state Env (option error) :=
  p <- changeWorkingDirectory d ;;
  match p with
  | (_, Some e) => ret (Some (Wrap e "getwd"))
  | (currentWorkingDirectory, None) =>
      deferChdir currentWorkingDirectory
        (b <- buildImages skipBuild buildOptions d ;;
         match b with
         | (_, Some e) => ret (Some e)
         | (built, None) =>
             r <- call (DeployControllerRender (id d) (default ∅ built)) ;;
             ret (err r)
         end)
  end.

Definition Purge (d : Dependency) : state Env (option error) :=
  p <- changeWorkingDirectory d ;;
  match p with
  | (_, Some e) => ret (Some (Wrap e "getwd"))
  | (currentWorkingDirectory, None) =>
      deferChdir currentWorkingDirectory
        (call (DeployControllerPurge (id d)) ;;;
         (if hasGenerated d then call (GeneratedSaverSave (id d)) ;;; ret tt
          else ret tt) ;;;
         cacheDelete (id d) ;;;
         ret None)
  end.

(** [ExecuteCommand] of this package, around [command.ExecuteCommand]: an
    exit status becomes a [ReturnCodeError], any other error is wrapped. *)
Definition ExecuteCommand (d : Dependency) (cmd : string) (args : list string)
    : state Env (option error) :=
  r <- call (CommandExecute (id d) cmd args) ;;
  match err r with
  | Some e =>
      match IsExitStatus e with
      | Some status => ret (Some (ReturnCodeError status))
      | None => ret (Some (Wrap e "execute command"))
      end
  | None => ret None
  end.

End WithOutside.
Arguments Env : clear implicits.
End Dep.

(** ** The orchestrator: handleDependencies (dependency.go) *)

Module Orchestrator.
Import Dep.

(** [skipDependency]. *)
Fixpoint skipDependency (name : string) (skipDependencies : list string) : bool :=
  match skipDependencies with
  | [] => false
  | sd :: rest => if bool_decide (sd = name) then true else skipDependency name rest
  end.

Fixpoint nameAmong (name : string) (dependencies : list string) : bool :=
  match dependencies with
  | [] => false
  | n :: rest => if bool_decide (n = name) then true else nameAmong name rest
  end.

(** [foundDependency]: an empty filter accepts every name. *)
Definition foundDependency (name : string) (dependencies : list string) : bool :=
  if bool_decide (length dependencies = 0) then true else nameAmong name dependencies.

(** [strings.ToLower] on ASCII letters. *)
Definition lowerAscii (c : Ascii.ascii) : Ascii.ascii :=
  let n := Ascii.nat_of_ascii c in
  if (65 <=? n)%nat && (n <=? 90)%nat then Ascii.ascii_of_nat (n + 32) else c.

Fixpoint ToLower (s : string) : string :=
  match s with
  | EmptyString => EmptyString
  | String c rest => String (lowerAscii c) (ToLower rest)
  end.

(** The manager's configuration: [None] when [m.config] is nil,
    [Some None] when [m.config.Config()] is nil, otherwise the declared
    dependencies. *)
Record manager : Type := {
  config : option (option (list DependencyConfig))
}.

Definition noDependencies (m : manager) : bool :=
  match config m with
  | None => true
  | Some None => true
  | Some (Some deps) => bool_decide (length deps = 0)
  end.

Section WithWorld.

(** What the action callbacks act on, and the collaborators of the
    orchestrator: the resolver, the plugin hooks of a single dependency
    (called with the event and the extra event name), the text an action
    wrote to its buffered logger, and [runtime.NumCPU()].  [fuel] bounds the
    depth of the traversals. *)
Context {W : Type}.
Variable Resolve : bool → state W (graph Dependency + error).
Variable pluginHook : string → string → Dependency → state W (option error).
Variable logStream : Dependency → W → string.
Variable NumCPU : Z.
Variable fuel : nat.

(** The variables of one call of [handleDependencies] that its closures
    share.  [handed] and [acted] are not in the program: they list the IDs
    of the nodes the provider returned work for, and of those the action
    callback was called on, in order. *)
Record hstate : Type := {
  dependencyTree : graph Dependency;
  visited : gmap string string;
  executedDependencies : list Dependency;
  world : W;
  handed : list string;
  acted : list string
}.

Definition withWorld (w : W) (st : hstate) : hstate :=
  {| dependencyTree := dependencyTree st; visited := visited st;
     executedDependencies := executedDependencies st; world := w;
     handed := handed st; acted := acted st |}.

Definition withTree (g : graph Dependency) (st : hstate) : hstate :=
  {| dependencyTree := g; visited := visited st;
     executedDependencies := executedDependencies st; world := world st;
     handed := handed st; acted := acted st |}.

Definition withVisited (v : gmap string string) (st : hstate) : hstate :=
  {| dependencyTree := dependencyTree st; visited := v;
     executedDependencies := executedDependencies st; world := world st;
     handed := handed st; acted := acted st |}.

Definition hand (id : string) (st : hstate) : hstate :=
  {| dependencyTree := dependencyTree st; visited := visited st;
     executedDependencies := executedDependencies st; world := world st;
     handed := handed st ++ [id]; acted := acted st |}.

Local Open Scope state_scope.

(** Runs code of the world inside the call's state. *)
Definition inWorld {A : Type} (m : state W A) : state hstate A :=
  λ st, let '(w, a) := m (world st) in (withWorld w st, a).

Definition callAction (n : node Dependency)
    (action : Dependency → state W (option error)) : state hstate (option error) :=
  λ st, let '(w, r) := action (Graph.Dependency n) (world st) in
        ({| dependencyTree := dependencyTree st; visited := visited st;
            executedDependencies := executedDependencies st; world := w;
            handed := handed st; acted := acted st ++ [Graph.ID n] |}, r).

Definition appendExecuted (d : Dependency) : state hstate unit :=
  λ st, ({| dependencyTree := dependencyTree st; visited := visited st;
            executedDependencies := executedDependencies st ++ [d];
            world := world st; handed := handed st; acted := acted st |}, tt).

(** The plugin hook of one dependency, run only when it has a config. *)
Definition dependencyHook (phase actionName : string) (d : Dependency)
    : state hstate (option error) :=
  if bool_decide (Config d ≠ None) then
    inWorld (pluginHook (phase +:+ ":" +:+ ToLower actionName +:+ "Dependency")
               ("dependencies." +:+ phase +:+ actionName) d)
  else ret None.

Section Call.

Variables skipDependencies filterDependencies : list string.
Variables reverse verbose : bool.
Variable actionName : string.
Variable action : Dependency → state W (option error).

(** The closure [performAction]. *)
Definition performAction (n : node Dependency) : state hstate (option error) :=
  λ st,
  if bool_decide (Graph.ID n = Graph.Root (dependencyTree st)) then (st, None)
  else
    let dependency := Graph.Dependency n in
    if negb (foundDependency (Name dependency) filterDependencies) then (st, None)
    else if skipDependency (Name dependency) skipDependencies then (st, None)
    else
      (before <- dependencyHook "before" actionName dependency ;;
       match before with
       | Some pluginErr => ret (Some pluginErr)
       | None =>
           err <- callAction n action ;;
           match err with
           | Some e =>
               onError <- dependencyHook "error" actionName dependency ;;
               match onError with
               | Some pluginErr => ret (Some pluginErr)
               | None =>
                   out <- (λ s, (s, if verbose then ""
                                    else logStream dependency (world s))) ;;
                   ret (Some (Wrap e (actionName +:+ " dependency " +:+
                                        Name dependency +:+ " error " +:+ out)))
               end
           | None =>
               after <- dependencyHook "after" actionName dependency ;;
               match after with
               | Some pluginErr => ret (Some pluginErr)
               | None =>
                   appendExecuted dependency ;;;
                   ret None
               end
           end
       end) st.

(** The visitor of the reverse branch: any node but the root that is not
    yet in [visited]. *)
Definition visitReverse (rootID : string) : @visitor Dependency (gmap string string) :=
  λ n visited,
  if bool_decide (Graph.ID n = rootID) then (visited, (false, None))
  else if bool_decide (visited !! Graph.ID n = None)
       then (<[Graph.ID n := Graph.ID n]> visited, (true, None))
       else (visited, (false, None)).

(** The visitor of the forward branch: as above, and only nodes without
    children. *)
Definition visitForward (rootID : string) : @visitor Dependency (gmap string string) :=
  λ n visited,
  if bool_decide (Graph.ID n = rootID) then (visited, (false, None))
  else if bool_decide (length (childs n) = 0) then
         if bool_decide (visited !! Graph.ID n = None)
         then (<[Graph.ID n := Graph.ID n]> visited, (true, None))
         else (visited, (false, None))
       else (visited, (false, None)).

(** The traversal of one provider call: the node it stops at and the
    [visited] map it leaves. *)
Definition nextNode (g : graph Dependency) (v : gmap string string)
    : option (gmap string string * found) :=
  if reverse
  then preOrderSearch fuel g (Graph.Root g) (visitReverse (Graph.Root g)) v
  else postOrderSearch fuel g (Graph.Root g) (visitForward (Graph.Root g)) v.

(** The provider given to [NewScheduler].  A unit of work is the closure
    over [nextNode]; it is kept as that node. *)
Definition provide : Scheduler.provider hstate (node Dependency) :=
  λ st,
  match nextNode (dependencyTree st) (visited st) with
  | None => None
  | Some (v, (_, Some err)) => Some (withVisited v st, (None, Some err))
  | Some (v, (Some n, None)) => Some (hand (Graph.ID n) (withVisited v st), (Some n, None))
  | Some (v, (None, None)) => Some (withVisited v st, (None, None))
  end.

(** The code of the work closure: the reverse one calls [performAction];
    the forward one calls it and then removes the node. *)
Definition runWork (n : node Dependency) : state hstate (option error) :=
  if reverse then performAction n
  else
    err <- performAction n ;;
    (λ st, (withTree (removeNode (Graph.ID n) (dependencyTree st)) st, tt)) ;;;
    ret err.

Definition normalize (concurrency : Z) : Z :=
  if bool_decide (concurrency = 0%Z) then NumCPU else concurrency.

Definition scheduler (concurrency : Z) : Scheduler.scheduler hstate (node Dependency) :=
  Scheduler.NewScheduler (normalize concurrency) provide.

Definition initial (g : graph Dependency) (w : W) : hstate :=
  {| dependencyTree := g; visited := ∅; executedDependencies := [];
     world := w; handed := []; acted := [] |}.

(** [handleDependencies], under the interleaving [sched] of the scheduler's
    goroutines.  The messages to [m.log] are not modelled, so [silent] has
    no counterpart.  The dependency list is [None] for a nil slice.  The outer
    [None]: the scheduler has not returned by the end of [sched]. *)
Definition handleDependencies (m : manager) (updateDependencies : bool)
    (concurrency : Z) (sched : list nat) (w : W)
    : option (W * (option (list Dependency) * option error)) :=
  if noDependencies m then Some (w, (None, None))
  else
    match Resolve updateDependencies w with
    | (w1, inr err) => Some (w1, (None, Some (Wrap err "resolve dependencies")))
    | (w1, inl dependencyTree) =>
        match Scheduler.Run runWork (scheduler concurrency) sched
                (initial dependencyTree w1) with
        | None => None
        | Some (st, Some err) => Some (world st, (None, Some err))
        | Some (st, None) =>
            Some (world st,
                  (Some (filter (λ d, Root d = true) (executedDependencies st)), None))
        end
    end.

End Call.
End WithWorld.
Arguments hstate : clear implicits.
End Orchestrator.

(** ** The provider of handleDependencies, one statement at a time *)

(** The visitor closures of the provider test [visited[n.ID] == nil]
    (dependency.go 373 and 397) and then store [visited[n.ID] = n] (374 and
    398).  Nothing in the package holds a lock, so with two goroutines
    another call of the provider can run between the test and the store.
    Here a call of the provider takes two steps: the traversal up to the
    test that succeeds, and the store with the return of the work closure.
    The unit of work is still run in one step.  With one goroutine the runs
    are those of [Scheduler.step]; with more, these are some of the further
    runs the program has, not all of them. *)
Module Race.
Import Dep Orchestrator.

Section WithWorld.

Context {W : Type}.
Variable pluginHook : string → string → Dependency → state W (option error).
Variable logStream : Dependency → W → string.
Variable NumCPU : Z.
Variable fuel : nat.
Variables skipDependencies filterDependencies : list string.
Variables reverse verbose : bool.
Variable actionName : string.
Variable action : Dependency → state W (option error).

(** Where one goroutine stands: about to call the provider; inside the
    provider, after the test of [visited] succeeded for [n] and before the
    store; holding the unit of work for [n]; or returned. *)
Inductive worker : Type :=
  | Fetching
  | Marking (n : node Dependency)
  | Executing (n : node Dependency)
  | Returned (err : option error).

Record pool : Type := {
  shared : hstate W;
  workers : list worker;
  groupErr : option error;
  returns : list (nat * option error)
}.

Definition retire (i : nat) (e : option error) (p : pool) (s : hstate W) : pool :=
  {| shared := s;
     workers := <[i := Returned e]> (workers p);
     groupErr := match groupErr p with Some e0 => Some e0 | None => e end;
     returns := returns p ++ [(i, e)] |}.

Definition become (i : nat) (w : worker) (p : pool) (s : hstate W) : pool :=
  {| shared := s; workers := <[i := w]> (workers p);
     groupErr := groupErr p; returns := returns p |}.

(** The store [visited[n.ID] = n], and the return of the closure for [n]. *)
Definition mark (n : node Dependency) (st : hstate W) : hstate W :=
  hand (Graph.ID n) (withVisited (<[Graph.ID n := Graph.ID n]> (visited st)) st).

(** One step of goroutine [i].  The traversal reads the graph and
    [visited] and writes nothing before the test succeeds, so the first
    step of a call leaves the shared state as it is. *)
Definition step (i : nat) (p : pool) : pool :=
  match workers p !! i with
  | Some Fetching =>
      match nextNode fuel reverse (dependencyTree (shared p)) (visited (shared p)) with
      | None => p
      | Some (_, (_, Some err)) => retire i (Some err) p (shared p)
      | Some (_, (None, None)) => retire i None p (shared p)
      | Some (_, (Some n, None)) => become i (Marking n) p (shared p)
      end
  | Some (Marking n) => become i (Executing n) p (mark n (shared p))
  | Some (Executing n) =>
      match runWork pluginHook logStream skipDependencies filterDependencies
              reverse verbose actionName action n (shared p) with
      | (s, Some err) => retire i (Some err) p s
      | (s, None) => become i Fetching p s
      end
  | _ => p
  end.

Definition start (concurrency : Z) (s : hstate W) : pool :=
  {| shared := s;
     workers := replicate (Z.to_nat (normalize NumCPU concurrency)) Fetching;
     groupErr := None;
     returns := [] |}.

Definition exec (sched : list nat) (p : pool) : pool :=
  foldl (λ q i, step i q) p sched.

(** The pool of [Scheduler] a pool stands for when every call of the
    provider that has begun is taken as not begun. *)
Definition serialWorker (w : worker) : Scheduler.worker (node Dependency) :=
  match w with
  | Fetching | Marking _ => Scheduler.Fetching
  | Executing n => Scheduler.Executing n
  | Returned e => Scheduler.Returned e
  end.

Definition serial (p : pool) : Scheduler.pool (hstate W) (node Dependency) :=
  {| Scheduler.shared := shared p;
     Scheduler.workers := serialWorker <$> workers p;
     Scheduler.groupErr := groupErr p;
     Scheduler.returns := returns p |}.

End WithWorld.
Arguments pool : clear implicits.
End Race.

(** ** The entry points of the manager (dependency.go) *)

Module Manager.
Import Dep Orchestrator.

Record ResolveOptions : Type := {
  ro_SkipDependencies : list string;
  ro_Dependencies : list string;
  ro_UpdateDependencies : bool;
  ro_Silent : bool;
  ro_Verbose : bool
}.

Record CommandOptions : Type := {
  co_Dependency : string;
  co_Command : string;
  co_Args : list string;
  co_UpdateDependencies : bool;
  co_Verbose : bool
}.

Record BuildAllOptions : Type := {
  bo_BuildOptions : BuildOptions;
  bo_SkipDependencies : list string;
  bo_Dependencies : list string;
  bo_UpdateDependencies : bool;
  bo_ForceDeployDependencies : bool;
  bo_Verbose : bool
}.

Record DeployOptions : Type := {
  do_BuildOptions : BuildOptions;
  do_SkipDependencies : list string;
  do_Dependencies : list string;
  do_UpdateDependencies : bool;
  do_ForceDeployDependencies : bool;
  do_SkipBuild : bool;
  do_SkipDeploy : bool;
  do_ForceDeploy : bool;
  do_Verbose : bool
}.

Record PurgeOptions : Type := {
  po_SkipDependencies : list string;
  po_Dependencies : list string;
  po_Verbose : bool
}.

Record RenderOptions : Type := {
  rn_SkipDependencies : list string;
  rn_Dependencies : list string;
  rn_Verbose : bool;
  rn_UpdateDependencies : bool;
  rn_SkipBuild : bool;
  rn_BuildOptions : BuildOptions
}.

Section WithOutside.

(** The outside of the package and the manager's collaborators:
    [executeHooks] is [hook.ExecuteHooks], called with the event, the
    dependencies and the error it is told about; [ansiColor] is
    [ansi.Color]. *)
Context {X : Type}.
Variable extern : Call → X → X * Reply.
Variable Resolve : bool → state (Env X) (graph Dependency + error).
Variable pluginHook : string → string → Dependency → state (Env X) (option error).
Variable logStream : Dependency → Env X → string.
Variable executeHooks :
  string → option (list Dependency) → option error → state (Env X) (option error).
Variable ansiColor : string → string → string.
Variable NumCPU : Z.
Variable fuel : nat.

Local Open Scope state_scope.

(** What an entry point returns: the dependencies ([None] for a nil
    slice) and the error. *)
Definition outcome : Type := (option (list Dependency) * option error)%type.

Definition UpdateAll (m : manager) : state (Env X) (option error) :=
  if noDependencies m then ret None
  else
    r <- Resolve true ;;
    match r with
    | inr (CyclicError cycle) =>
        ret (Some (Errorf (error_Error (CyclicError cycle) +:+ "." +:+ newline +:+
                             " To allow cyclic dependencies run with the '" +:+
                             ansiColor "--allow-cyclic" "white+b" +:+ "' flag")))
    | inr e => ret (Some e)
    | inl _ => ret None
    end.

Definition handle := handleDependencies Resolve pluginHook logStream NumCPU fuel.

Definition ResolveAll (m : manager) (options : ResolveOptions) (sched : list nat)
    (w : Env X) : option (Env X * outcome) :=
  match handle (ro_SkipDependencies options) (ro_Dependencies options) false
          (ro_Verbose options) "Resolve" (λ _, ret None)
          m (ro_UpdateDependencies options) 1 sched w with
  | None => None
  | Some (w1, (_, Some e)) => Some (w1, (None, Some e))
  | Some (w1, (dependencies, None)) => Some (w1, (dependencies, None))
  end.

Definition BuildAll (m : manager) (options : BuildAllOptions) (sched : list nat)
    (w : Env X) : option (Env X * outcome) :=
  handle (bo_SkipDependencies options) (bo_Dependencies options) false
    (bo_Verbose options) "Build"
    (Build extern (bo_ForceDeployDependencies options) (bo_BuildOptions options))
    m (bo_UpdateDependencies options)
    (MaxConcurrentBuilds (bo_BuildOptions options)) sched w.

Definition DeployAll (m : manager) (options : DeployOptions) (sched : list nat)
    (w : Env X) : option (Env X * outcome) :=
  match executeHooks "before:deployDependencies" None None w with
  | (w1, Some pluginErr) => Some (w1, (None, Some pluginErr))
  | (w1, None) =>
      match handle (do_SkipDependencies options) (do_Dependencies options) false
              (do_Verbose options) "Deploy"
              (Deploy extern (do_ForceDeployDependencies options)
                 (do_SkipBuild options) (do_SkipDeploy options)
                 (do_ForceDeploy options) (do_BuildOptions options))
              m (do_UpdateDependencies options)
              (MaxConcurrentBuilds (do_BuildOptions options)) sched w1 with
      | None => None
      | Some (w2, (_, Some e)) =>
          match executeHooks "error:deployDependencies" None (Some e) w2 with
          | (w3, Some pluginErr) => Some (w3, (None, Some pluginErr))
          | (w3, None) => Some (w3, (None, Some e))
          end
      | Some (w2, (dependencies, None)) =>
          match executeHooks "after:deployDependencies" dependencies None w2 with
          | (w3, Some pluginErr) => Some (w3, (None, Some pluginErr))
          | (w3, None) => Some (w3, (dependencies, None))
          end
      end
  end.

Definition PurgeAll (m : manager) (options : PurgeOptions) (sched : list nat)
    (w : Env X) : option (Env X * outcome) :=
  handle (po_SkipDependencies options) (po_Dependencies options) true
    (po_Verbose options) "Purge" (Purge extern)
    m false 1 sched w.

Definition RenderAll (m : manager) (options : RenderOptions) (sched : list nat)
    (w : Env X) : option (Env X * outcome) :=
  handle (rn_SkipDependencies options) (rn_Dependencies options) false
    (rn_Verbose options) "Render"
    (Render extern (rn_SkipBuild options) (rn_BuildOptions options))
    m (rn_UpdateDependencies options) 1 sched w.

(** [Command] shares the variable [found] with its callback, so the
    callback acts on the world together with [found]. *)
Definition beside {A : Type} (m : state (Env X) A) : state (Env X * bool) A :=
  λ '(e, found), let '(e1, a) := m e in ((e1, found), a).

Definition commandAction (options : CommandOptions) (d : Dependency)
    : state (Env X * bool) (option error) :=
  λ '(e, found),
  match prepare extern true d e with
  | (e1, (_, Some err)) => ((e1, found), Some err)
  | (e1, (currentWorkingDirectory, None)) =>
      if bool_decide (currentWorkingDirectory = "") then ((e1, found), None)
      else
        let '(e2, r) :=
          deferChdir extern currentWorkingDirectory
            (ExecuteCommand extern d (co_Command options) (co_Args options)) e1 in
        ((e2, true), r)
  end.

Definition Command (m : manager) (options : CommandOptions) (sched : list nat)
    (w : Env X) : option (Env X * option error) :=
  match handleDependencies (λ u, beside (Resolve u))
          (λ ev extra d, beside (pluginHook ev extra d))
          (λ d '(e, _), logStream d e) NumCPU fuel
          [] [co_Dependency options] false (co_Verbose options) "Command"
          (commandAction options)
          m (co_UpdateDependencies options) 1 sched (w, false) with
  | None => None
  | Some ((w1, found), (_, err)) =>
      if negb found
      then Some (w1, Some (Errorf ("couldn't find dependency " +:+ co_Dependency options)))
      else Some (w1, err)
  end.

End WithOutside.
End Manager.

(** ** Concrete inputs *)

(** The scheduler tests of scheduler_test.go: the state is the work that
    is left and the results so far; a unit of work is the item it
    captured. *)
Module TestRun.

Definition expectedErr : error := Errorf "work error!".

Definition queue : Type := (list string * list string)%type.

Definition work : list string := ["one"; "two"; "three"; "four"; "five"].

(** The provider of [TestRun], [TestRunLess] and [TestRunWorkErrors]. *)
Definition nextItem : Scheduler.provider queue string :=
  λ '(work, results),
  match work with
  | result :: rest => Some ((rest, results), (Some result, None))
  | [] => Some ((work, results), (None, None))
  end.

(** The provider of [TestRunLookupWorkErrors]. *)
Definition nextItemOrError : Scheduler.provider queue string :=
  λ '(work, results),
  match work with
  | result :: rest =>
      if bool_decide (result = "three") then Some ((rest, results), (None, Some expectedErr))
      else Some ((rest, results), (Some result, None))
  | [] => Some ((work, results), (None, None))
  end.

(** The closure of [TestRun]: it records its item. *)
Definition record (result : string) : queue → queue * option error :=
  λ '(work, results), ((work, results ++ [result]), None).

(** The closure of [TestRunWorkErrors]: the item "three" fails. *)
Definition recordOrFail (result : string) : queue → queue * option error :=
  λ '(work, results),
  if bool_decide (result = "three") then ((work, results), Some expectedErr)
  else ((work, results ++ [result]), None).

(** An interleaving of two goroutines. *)
Definition alternate : list nat := [0; 1; 0; 1; 1; 0; 0; 1; 0; 1; 1; 0; 0; 1].

End TestRun.

(** A small resolved graph, root -> a -> b, and collaborators that always
    succeed. *)
Module Example.
Import Dep Orchestrator.

Definition mkDependency (i name : string) (isRoot : bool) : Dependency :=
  {| id := i; localPath := "./" +:+ name; localConfig := Some true; root := isRoot;
     dependencyConfig := {| Name_ := name; SkipBuild := false |};
     generatedSaver := true |}.

Definition depRoot : Dependency := mkDependency "root" "root" false.
Definition depA : Dependency := mkDependency "dep-a" "a" true.
Definition depB : Dependency := mkDependency "dep-b" "b" false.

Definition fuel : nat := 5.

Definition ins (p c : string) (d : Dependency) (g : graph Dependency) : graph Dependency :=
  match insertNodeAt fuel p c d g with
  | Some (g1, _) => g1
  | None => g
  end.

Definition tree : graph Dependency :=
  ins "dep-a" "dep-b" depB (ins "root" "dep-a" depA (newGraph (newNode "root" depRoot))).

Definition rank (id : string) : nat :=
  if bool_decide (id = "root") then 2
  else if bool_decide (id = "dep-a") then 1
  else 0.

(** The outside answers every call without an error; the hash of every
    directory is "h1" and the working directory is "/work". *)
Definition extern (c : Call) (x : unit) : unit * Reply :=
  (x, {| err := None;
         text := match c with
                 | DirectoryExcludes _ _ _ => "h1"
                 | Getwd => "/work"
                 | _ => ""
                 end;
         images := ∅ |}).

Definition envWith (recorded : string) : Env unit :=
  {| cache := {[ "dep-a" := recorded ]}; builtImages := ∅; outside := tt; events := [] |}.

(** The cache holds the current hash of dep-a, or an old one. *)
Definition envUnchanged : Env unit := envWith "h1".
Definition envChanged : Env unit := envWith "h0".

Definition Resolve (update : bool) : state (Env unit) (graph Dependency + error) :=
  λ e, (e, inl tree).

Definition pluginHook (event extra : string) (d : Dependency)
    : state (Env unit) (option error) := λ e, (e, None).

Definition logStream (d : Dependency) (e : Env unit) : string := "".

Definition executeHooks (event : string) (deps : option (list Dependency))
    (failure : option error) : state (Env unit) (option error) := λ e, (e, None).

Definition ansiColor (s style : string) : string := s.

Definition NumCPU : Z := 4.

Definition buildOptions : BuildOptions := {| MaxConcurrentBuilds := 0 |}.

Definition commandOptions : Manager.CommandOptions :=
  {| Manager.co_Dependency := "a"; Manager.co_Command := "test";
     Manager.co_Args := []; Manager.co_UpdateDependencies := false;
     Manager.co_Verbose := false |}.

(** A manager without a configuration, and one whose configuration
    declares no dependency. *)
Definition noConfig : manager := {| config := None |}.
Definition emptyConfig : manager := {| config := Some (Some []) |}.

(** The state of a purge call right after the graph was resolved. *)
Definition purgeStart : hstate (Env unit) := initial tree envUnchanged.

End Example.

(** Further concrete inputs: a configuration that declares a dependency, a
    resolver and an outside that fail, and interleavings of one, two and
    four goroutines. *)
Module Example2.
Import Dep Orchestrator.

Definition someConfig : manager :=
  {| config := Some (Some [ {| Name_ := "a"; SkipBuild := false |} ]) |}.

Definition resolveError : error := Errorf "no such directory".

Definition failingResolve (update : bool)
    : state (Env unit) (graph Dependency + error) :=
  λ e, (e, inr resolveError).

(** An outside where hashing a directory fails. *)
Definition hashError : error := Errorf "permission denied".

Definition failingExtern (c : Call) (x : unit) : unit * Reply :=
  (x, {| err := match c with
                | DirectoryExcludes _ _ _ => Some hashError
                | _ => None
                end;
         text := ""; images := ∅ |}).

(** One goroutine taking seven steps. *)
Definition alone : list nat := [0; 0; 0; 0; 0; 0; 0].

Definition unknownCommand : Manager.CommandOptions :=
  {| Manager.co_Dependency := "zzz"; Manager.co_Command := "test";
     Manager.co_Args := []; Manager.co_UpdateDependencies := false;
     Manager.co_Verbose := false |}.

Definition buildAllOptions : Manager.BuildAllOptions :=
  {| Manager.bo_BuildOptions := Example.buildOptions;
     Manager.bo_SkipDependencies := []; Manager.bo_Dependencies := [];
     Manager.bo_UpdateDependencies := false;
     Manager.bo_ForceDeployDependencies := false; Manager.bo_Verbose := false |}.




(** The same build with [MaxConcurrentBuilds] one. *)
Definition oneBuild : BuildOptions := {| MaxConcurrentBuilds := 1 |}.

Definition unraced : hstate (Env unit) :=
  Race.shared
    (Race.exec Example.pluginHook Example.logStream Example.fuel [] [] false false
       "Build" (Build Example.extern false oneBuild) alone
       (Race.start Example.NumCPU (MaxConcurrentBuilds oneBuild)
          (initial Example.tree Example.envChanged))).

End Example2.

(** * Properties *)

(** ** Change detection *)

Module DepFacts.
Import Dep.

Section WithOutside.

Context {X : Type}.
Variable extern : Call → X → X * Reply.

(** [e1] is [e] after some more observable steps. *)
Definition extends (e e1 : Env X) : Prop :=
  ∃ more, events e1 = events e ++ more.

Lemma extends_refl e : extends e e.
Proof. exists []. by rewrite app_nil_r. Qed.

Lemma extends_trans e1 e2 e3 : extends e1 e2 → extends e2 e3 → extends e1 e3.
Proof.
  intros [m1 H1] [m2 H2]. exists (m1 ++ m2). by rewrite H2, H1, app_assoc.
Qed.

(** Code that only ever adds to the record of events. *)
Definition appends {A : Type} (m : state (Env X) A) : Prop :=
  ∀ e, extends e (m e).1.

Lemma appends_ret {A} (a : A) : appends (ret a).
Proof. intros e. apply extends_refl. Qed.

Lemma appends_bind {A B} (m : state (Env X) A) (k : A → state (Env X) B) :
  appends m → (∀ a, appends (k a)) → appends (bind m k).
Proof.
  intros Hm Hk e. unfold bind. specialize (Hm e).
  destruct (m e) as [e1 a] eqn:E. simpl in Hm.
  eapply extends_trans; [exact Hm | apply Hk].
Qed.

Lemma appends_call c : appends (call extern c).
Proof.
  intros e. unfold call. destruct (extern c (outside e)) as [x r].
  simpl. by exists [Called c].
Qed.

Lemma appends_cacheSet i h : appends (@cacheSet X i h).
Proof. intros e. by exists [CacheSet i h]. Qed.

Lemma appends_setBuiltImages i m : appends (@setBuiltImages X i m).
Proof. intros e. exists []. simpl. by rewrite app_nil_r. Qed.

Lemma appends_if {A} (b : bool) (m1 m2 : state (Env X) A) :
  appends m1 → appends m2 → appends (if b then m1 else m2).
Proof. by destruct b. Qed.

Ltac appends_tac :=
  repeat first
    [ apply appends_ret
    | apply appends_call
    | apply appends_cacheSet
    | apply appends_setBuiltImages
    | apply appends_bind; [| intros ?]
    | apply appends_if
    | match goal with
      | |- appends (match ?x with _ => _ end) => destruct x
      end ].

Lemma appends_changeWorkingDirectory d : appends (changeWorkingDirectory extern d).
Proof. unfold changeWorkingDirectory. appends_tac. Qed.

Lemma appends_buildImages skip opts d : appends (buildImages extern skip opts d).
Proof. unfold buildImages. appends_tac. Qed.

Lemma appends_deferChdir {A} cwd (m : state (Env X) A) :
  appends m → appends (deferChdir extern cwd m).
Proof. intros H. unfold deferChdir. appends_tac. exact H. Qed.

(** The hashing call [prepare] starts with. *)
Definition hashCall (d : Dependency) : Call :=
  DirectoryExcludes (localPath d) [".git"; ".devspace"] true.

(** The environment right after the hashing call. *)
Definition hashed (d : Dependency) (e : Env X) : Env X :=
  (call extern (hashCall d) e).1.

Definition hashOf (d : Dependency) (e : Env X) : Reply :=
  (call extern (hashCall d) e).2.

Lemma events_hashed d e : events (hashed d e) = events e ++ [Called (hashCall d)].
Proof. unfold hashed, call. by destruct (extern _ _). Qed.

Lemma cache_hashed d e : cache (hashed d e) = cache e.
Proof. unfold hashed, call. by destruct (extern _ _). Qed.

Lemma builtImages_hashed d e : builtImages (hashed d e) = builtImages e.
Proof. unfold hashed, call. by destruct (extern _ _). Qed.

Lemma prepare_unchanged d e :
  err (hashOf d e) = None →
  text (hashOf d e) = default "" (cache e !! id d) →
  prepare extern false d e = (hashed d e, ("", None)).
Proof.
  intros He Ht. rewrite <- (cache_hashed d e) in Ht.
  unfold prepare, bind, hashed, hashOf in *.
  fold (hashCall d). destruct (call extern (hashCall d) e) as [e1 r].
  simpl in *. rewrite He. unfold cacheGet.
  rewrite bool_decide_true by done. reflexivity.
Qed.

Lemma prepare_executes force d e :
  err (hashOf d e) = None →
  force = true ∨ text (hashOf d e) ≠ default "" (cache e !! id d) →
  prepare extern force d e =
    changeWorkingDirectory extern d
      (cacheSet (id d) (text (hashOf d e)) (hashed d e)).1.
Proof.
  intros He Hf. rewrite <- (cache_hashed d e) in Hf.
  unfold prepare, bind, hashed, hashOf in *.
  fold (hashCall d). destruct (call extern (hashCall d) e) as [e1 r].
  simpl in *. rewrite He. unfold cacheGet.
  destruct Hf as [-> | Hne]; [reflexivity |].
  rewrite (bool_decide_false _ Hne), andb_false_r. reflexivity.
Qed.

Lemma cache_call c e : cache (call extern c e).1 = cache e.
Proof. unfold call. by destruct (extern _ _). Qed.

Lemma cache_changeWorkingDirectory d e :
  cache (changeWorkingDirectory extern d e).1 = cache e.
Proof.
  unfold changeWorkingDirectory, bind.
  pose proof (cache_call Getwd e) as H1.
  destruct (call extern Getwd e) as [e1 wd]. simpl in H1.
  destruct (err wd); [done |].
  pose proof (cache_call (Chdir (localPath d)) e1) as H2.
  destruct (call extern (Chdir (localPath d)) e1) as [e2 cd]. simpl in H2.
  destruct (err cd); simpl; congruence.
Qed.

(** After the hash and the cache write, whatever follows only adds. *)
Lemma executes_events {A} force d e (k : string * option error → state (Env X) A) :
  err (hashOf d e) = None →
  force = true ∨ text (hashOf d e) ≠ default "" (cache e !! id d) →
  (∀ p, appends (k p)) →
  ∃ rest,
    events (bind (prepare extern force d) k e).1 =
      events e ++ [Called (hashCall d); CacheSet (id d) (text (hashOf d e))] ++ rest.
Proof.
  intros He Hf Hk. unfold bind at 1. rewrite (prepare_executes _ _ _ He Hf).
  set (e2 := (cacheSet _ _ (hashed d e)).1).
  assert (appends (bind (changeWorkingDirectory extern d) k)) as Happ.
  { apply appends_bind; [apply appends_changeWorkingDirectory | done]. }
  destruct (Happ e2) as [rest Hrest]. unfold bind in Hrest.
  destruct (changeWorkingDirectory extern d e2) as [e3 p].
  exists rest. rewrite Hrest. subst e2. simpl. rewrite events_hashed.
  by rewrite <- !app_assoc.
Qed.

Lemma Build_unchanged opts d e :
  err (hashOf d e) = None →
  text (hashOf d e) = default "" (cache e !! id d) →
  Build extern false opts d e = (hashed d e, None).
Proof.
  intros He Ht. unfold Build, bind. by rewrite prepare_unchanged.
Qed.

Lemma Deploy_unchanged skipBuild skipDeploy forceDeploy opts d e :
  err (hashOf d e) = None →
  text (hashOf d e) = default "" (cache e !! id d) →
  Deploy extern false skipBuild skipDeploy forceDeploy opts d e = (hashed d e, None).
Proof.
  intros He Ht. unfold Deploy, bind. by rewrite prepare_unchanged.
Qed.

Lemma appends_BuildRest opts d (p : string * option error) :
  appends
    (match p with
     | (_, Some e) => ret (Some e)
     | (currentWorkingDirectory, None) =>
         if bool_decide (currentWorkingDirectory = "") then ret None
         else
           deferChdir extern currentWorkingDirectory
             (bind (buildImages extern false opts d)
                (λ b, match b with
                      | (_, Some e) => ret (Some e)
                      | (_, None) => ret None
                      end))
     end).
Proof.
  destruct p as [cwd [e0|]]; [apply appends_ret |].
  apply appends_if; [apply appends_ret |].
  apply appends_deferChdir, appends_bind; [apply appends_buildImages |].
  intros [? [?|]]; apply appends_ret.
Qed.

(** C6.  A forward action ([Build], [Deploy]) on a dependency whose
    directory hash, taken without the [.git] and [.devspace]
    subdirectories, equals the hash recorded for its ID, and that is not
    forced, returns nil after the hashing call alone: no other call leaves
    the package, and the cache and the built images stay as they were.
    When the action does execute (it is forced, as the callback of
    [Command] always is, or the hash differs), the new hash is written to
    the cache right after the hashing call, before any change of the
    working directory. *)
Theorem change_detection (d : Dependency) (e : Env X) (opts : BuildOptions)
    (skipBuild skipDeploy forceDeploy : bool) (copts : Manager.CommandOptions)
    (found : bool) :
  err (hashOf d e) = None →
  hashCall d = DirectoryExcludes (localPath d) [".git"; ".devspace"] true ∧
  (cache e !! id d = Some (text (hashOf d e)) →
     Build extern false opts d e = (hashed d e, None) ∧
     Deploy extern false skipBuild skipDeploy forceDeploy opts d e
       = (hashed d e, None) ∧
     events (hashed d e) = events e ++ [Called (hashCall d)] ∧
     cache (hashed d e) = cache e ∧
     builtImages (hashed d e) = builtImages e) ∧
  (∀ force,
     force = true ∨ text (hashOf d e) ≠ default "" (cache e !! id d) →
     let written :=
       [Called (hashCall d); CacheSet (id d) (text (hashOf d e))] in
     (∃ rest, events (Build extern force opts d e).1 = events e ++ written ++ rest) ∧
     (∃ rest, events (Deploy extern force skipBuild skipDeploy forceDeploy opts d e).1
                = events e ++ written ++ rest) ∧
     (∃ rest cwd r, prepare extern force d e = (cwd, r) ∧
                    events cwd = events e ++ written ++ rest ∧
                    cache cwd !! id d = Some (text (hashOf d e)))) ∧
  (∃ rest, events (Manager.commandAction extern copts d (e, found)).1.1
             = events e ++
               [Called (hashCall d); CacheSet (id d) (text (hashOf d e))] ++ rest).
Proof.
  intros He. split; [reflexivity |]. split; [| split].
  - intros Hc.
    assert (text (hashOf d e) = default "" (cache e !! id d)) as Ht
      by (by rewrite Hc).
    rewrite Build_unchanged, Deploy_unchanged by done.
    rewrite events_hashed, cache_hashed, builtImages_hashed. done.
  - intros force Hf written. split; [| split].
    + unfold Build. apply executes_events; [done | done |].
      intros p. apply appends_BuildRest.
    + unfold Deploy. apply executes_events; [done | done |].
      intros [cwd [e0|]]; [apply appends_ret |].
      apply appends_if; [apply appends_ret |].
      apply appends_deferChdir. appends_tac.
      all: try apply appends_buildImages; appends_tac.
    + destruct (executes_events force d e ret He Hf) as [rest Hr].
      { intros p. apply appends_ret. }
      unfold bind in Hr.
      destruct (prepare extern force d e) as [e1 [cwd r]] eqn:E.
      exists rest, e1, (cwd, r). split; [done |]. split; [exact Hr |].
      change e1 with (e1, (cwd, r)).1. rewrite <- E.
      rewrite (prepare_executes _ _ _ He Hf), cache_changeWorkingDirectory.
      simpl. by rewrite lookup_insert_eq.
  - pose proof (executes_events true d e
       (λ p, match p with
             | (_, Some er) => ret (Some er)
             | (cwd, None) =>
                 if bool_decide (cwd = "") then ret None
                 else deferChdir extern cwd
                        (ExecuteCommand extern d (Manager.co_Command copts)
                           (Manager.co_Args copts))
             end) He (or_introl eq_refl)) as [rest Hr].
    { intros [cwd [e0|]]; [apply appends_ret |].
      apply appends_if; [apply appends_ret |].
      apply appends_deferChdir. unfold ExecuteCommand. appends_tac. }
    exists rest. rewrite <- Hr. unfold Manager.commandAction, bind.
    destruct (prepare extern true d e) as [e1 [cwd [e0|]]]; [done |].
    destruct (bool_decide (cwd = "")); [done |].
    by destruct (deferChdir _ _ _ _).
Qed.

End WithOutside.

End DepFacts.

(** ** The scheduler *)

Module SchedulerFacts.
Import Scheduler.

Section Pool.

Context {St Work : Type}.
Variable runWork : Work → St → St * option error.
Variable sch : scheduler St Work.

Implicit Types p : pool St Work.

Local Abbreviation step := (step runWork sch).
Local Abbreviation exec := (exec runWork sch).












Lemma drained_spec p :
  drained p = true ↔ ∀ i w, workers p !! i = Some w → ∃ e, w = Returned e.
Proof.
  unfold drained. rewrite forallb_forall. split.
  - intros H i w Hw. specialize (H w).
    destruct w; [| | by eauto];
      (discriminate H; apply list_elem_of_In, list_elem_of_lookup; eauto).
  - intros H w [i Hi]%list_elem_of_In%list_elem_of_lookup.
    destruct (H i w Hi) as [e ->]. done.
Qed.


Lemma exec_snoc sched i p : exec (sched ++ [i]) p = step i (exec sched p).
Proof. unfold Scheduler.exec. by rewrite foldl_app. Qed.




End Pool.
End SchedulerFacts.

(** ** The graph *)

Module GraphFacts.
Import Graph.

Section WithPayload.

Context {D : Type}.
Implicit Types g : graph D.
Implicit Types n : node D.

Lemma ranked_child rk g a n b :
  ranked rk g → Nodes g !! a = Some n → b ∈ childs n → rk b < rk a.
Proof.
  intros Hr Ha Hb. specialize (Hr a n Ha). simpl in Hr.
  rewrite Forall_forall in Hr. by apply Hr.
Qed.

(** *** findFirstPath *)

Lemma firstPath_returns f cs :
  (∀ c, c ∈ cs → is_Some (f c)) → is_Some (firstPath f cs).
Proof.
  induction cs as [| c cs IH]; intros H; simpl; [by eexists |].
  destruct (H c (list_elem_of_here _ _)) as [[p|] ->]; [by eexists |].
  apply IH. intros c' Hc'. apply H. by apply elem_of_cons; right.
Qed.

Lemma firstPath_found f cs p :
  firstPath f cs = Some (Some p) → ∃ c, c ∈ cs ∧ f c = Some (Some p).
Proof.
  induction cs as [| c cs IH]; simpl; [done |].
  destruct (f c) as [[q|] |] eqn:E; [| | done].
  - intros [= ->]. exists c. split; [apply list_elem_of_here | done].
  - intros H. destruct (IH H) as (c' & Hc' & Hf). exists c'.
    split; [by apply elem_of_cons; right | done].
Qed.

Lemma firstPath_none f cs :
  firstPath f cs = Some None → ∀ c, c ∈ cs → f c = Some None.
Proof.
  induction cs as [| c cs IH]; simpl; [intros _ c H; by apply elem_of_nil in H |].
  destruct (f c) as [[q|] |] eqn:E; [done | | done].
  intros H c' [-> | Hc']%elem_of_cons; [done | by apply IH].
Qed.

Lemma findFirstPath_returns rk g target fuel start :
  ranked rk g → rk start < fuel → is_Some (findFirstPath fuel g start target).
Proof.
  intros Hr. revert start. induction fuel as [| fuel IH]; intros start Hlt; [lia |].
  simpl. destruct (decide (start = target)) as [Heq | Hne]; [by eexists |].
  destruct (Nodes g !! start) as [n|] eqn:Hn; [| by eexists].
  destruct (firstPath_returns (λ c, findFirstPath fuel g c target) (childs n))
    as [[p|] ->]; [| by eexists | by eexists].
  intros c Hc. apply IH. pose proof (ranked_child _ _ _ _ _ Hr Hn Hc). lia.
Qed.

Lemma findFirstPath_sound g target fuel start p :
  is_Some (Nodes g !! target) →
  findFirstPath fuel g start target = Some (Some p) →
  walk g start p ∧ last p = Some target.
Proof.
  intros [nt Ht]. revert start p.
  induction fuel as [| fuel IH]; intros start p; [done |].
  simpl. destruct (decide (start = target)) as [-> | Hne].
  - intros [= <-]. split; [by eapply walk_one | done].
  - destruct (Nodes g !! start) as [n|] eqn:Hn; [| done].
    destruct (firstPath _ (childs n)) as [[q|] |] eqn:E; [| done | done].
    intros [= <-]. apply firstPath_found in E as (c & Hc & Hf).
    destruct (IH _ _ Hf) as [Hw Hl]. split; [by eapply walk_cons |].
    destruct q; [done | exact Hl].
Qed.

Lemma findFirstPath_complete g target fuel start :
  findFirstPath fuel g start target = Some None →
  ∀ p, walk g start p → last p ≠ Some target.
Proof.
  revert start. induction fuel as [| fuel IH]; intros start; [done |].
  simpl. destruct (decide (start = target)) as [-> | Hne]; [done |].
  intros H p Hw. destruct Hw as [a n Ha | a n b q Ha Hb Hq].
  - simpl. congruence.
  - rewrite Ha in H.
    destruct (firstPath _ (childs n)) as [[r|] |] eqn:E; [done | | done].
    pose proof (firstPath_none _ _ E b Hb) as Hf. simpl in Hf.
    pose proof (IH _ Hf q Hq) as Hl.
    destruct q; [inversion Hq | exact Hl].
Qed.

(** [strings.Join] puts the separator before every element but the
    first. *)
Lemma Join_cons (a : string) (l : list string) (sep : string) :
  Join (a :: l) sep = a +:+ foldr (λ id rest, sep +:+ id +:+ rest) "" l.
Proof.
  revert a. induction l as [| b l IH]; intros a.
  - simpl. induction a as [| c a IHa]; [done |].
    change (String c a +:+ "") with (String c (a +:+ "")). by rewrite <- IHa.
  - change (Join (a :: b :: l) sep) with (a +:+ sep +:+ Join (b :: l) sep).
    by rewrite IH.
Qed.

(** C5.  When a walk along child edges leads from the child to the parent,
    [insertNodeAt] fails with a cycle error and leaves the graph as it was.
    The cycle it reports is the parent ID followed by the path the search
    found from the child to the parent, so it starts and ends at the parent
    ID, and its text is the prefix ["Cyclic dependency found: "], a line
    feed (character 10), the parent ID, and then each ID of the path after
    a line feed of its own. *)
Theorem insertNodeAt_cycle (rk : string → nat) (g : graph D) (fuel : nat)
    (parentID childID : string) (data : D) (q : list string) :
  ranked rk g → rk childID < fuel →
  walk g childID q → last q = Some parentID →
  ∃ p,
    findFirstPath fuel g childID parentID = Some (Some p) ∧
    insertNodeAt fuel parentID childID data g
      = Some (g, (None, Some (CyclicError (parentID :: p)))) ∧
    walk g childID p ∧
    head (parentID :: p) = Some parentID ∧
    last (parentID :: p) = Some parentID ∧
    error_Error (CyclicError (parentID :: p))
      = "Cyclic dependency found: " +:+
        String (Ascii.ascii_of_nat 10)
          (parentID +:+
           foldr (λ id rest, String (Ascii.ascii_of_nat 10) (id +:+ rest)) "" p).
Proof.
  intros Hr Hfuel Hq Hlast.
  assert (is_Some (Nodes g !! childID)) as [nc Hc] by (inversion Hq; eauto).
  assert (is_Some (Nodes g !! parentID)) as [np Hp].
  { clear Hfuel Hc nc. induction Hq as [a n Ha | a n b q Ha Hb Hq IH].
    - simpl in Hlast. inversion Hlast; subst. eauto.
    - apply IH. destruct q; [inversion Hq | exact Hlast]. }
  destruct (findFirstPath_returns rk g parentID fuel childID Hr Hfuel) as [[p|] Hf].
  - exists p. destruct (findFirstPath_sound g parentID fuel childID p) as [Hw Hl];
      [by eexists | done |].
    split; [done |]. unfold insertNodeAt. rewrite Hp, Hc, Hf.
    split; [by destruct g |]. split; [done |]. split; [done |].
    split; [destruct p; [done | exact Hl] |].
    simpl. unfold cyclicError_Error. rewrite Join_cons. reflexivity.
  - exfalso. by apply (findFirstPath_complete g parentID fuel childID Hf q Hq).
Qed.

(** *** The traversals *)

Section Search.

Context {St : Type}.
Implicit Types visit : @visitor D St.

Lemma searchChilds_returns (search : string → St → option (St * @found D)) cs s :
  (∀ c s0, c ∈ cs → is_Some (search c s0)) → is_Some (searchChilds search cs s).
Proof.
  revert s. induction cs as [| c cs IH]; intros s H; simpl; [by eexists |].
  destruct (H c s (list_elem_of_here _ _)) as [[s1 [[m|] [e|]]] ->];
    try by eexists.
  apply IH. intros c' s0 Hc'. apply H. by apply elem_of_cons; right.
Qed.

Lemma preOrderSearch_returns rk g visit fuel id s :
  ranked rk g → rk id < fuel → is_Some (preOrderSearch fuel g id visit s).
Proof.
  intros Hr. revert id s. induction fuel as [| fuel IH]; intros id s Hlt; [lia |].
  simpl. destruct (Nodes g !! id) as [n|] eqn:Hn; [| by eexists].
  destruct (visit n s) as [s1 [[|] [e|]]]; try by eexists.
  apply searchChilds_returns. intros c s0 Hc. apply IH.
  pose proof (ranked_child _ _ _ _ _ Hr Hn Hc). lia.
Qed.

Lemma postOrderSearch_returns rk g visit fuel id s :
  ranked rk g → rk id < fuel → is_Some (postOrderSearch fuel g id visit s).
Proof.
  intros Hr. revert id s. induction fuel as [| fuel IH]; intros id s Hlt; [lia |].
  simpl. destruct (Nodes g !! id) as [n|] eqn:Hn; [| by eexists].
  destruct (searchChilds_returns (λ c, postOrderSearch fuel g c visit) (childs n) s)
    as [[s1 [[m|] [e|]]] ->]; try by eexists.
  - intros c s0 Hc. apply IH. pose proof (ranked_child _ _ _ _ _ Hr Hn Hc). lia.
  - destruct (visit n s1) as [s2 [[|] [e|]]]; by eexists.
Qed.

Section Stopped.

Variable g : graph D.
Variable visit : @visitor D St.
Variable Q : St → Prop.
Hypothesis Q_kept : ∀ n s s1, Q s → visit n s = (s1, (false, None)) → Q s1.

Lemma searchChilds_stopped (search : string → St → option (St * @found D)) cs :
  (∀ c s res, Q s → search c s = Some res → stopped g visit Q res) →
  ∀ s res, Q s → searchChilds search cs s = Some res → stopped g visit Q res.
Proof.
  intros H. induction cs as [| c cs IH]; intros s res Hs; simpl.
  - intros [= <-]. exact Hs.
  - destruct (search c s) as [[s1 [[m|] [e|]]] |] eqn:E; [| | | | done].
    + intros [= <-]. exact (H _ _ _ Hs E).
    + intros [= <-]. exact (H _ _ _ Hs E).
    + intros [= <-]. exact (H _ _ _ Hs E).
    + apply IH. exact (H _ _ _ Hs E).
Qed.

Lemma preOrderSearch_stopped fuel id s res :
  Q s → preOrderSearch fuel g id visit s = Some res → stopped g visit Q res.
Proof.
  revert id s res. induction fuel as [| fuel IH]; intros id s res Hs; [done |].
  simpl. destruct (Nodes g !! id) as [n|] eqn:Hn.
  - destruct (visit n s) as [s1 [[|] [e|]]] eqn:Hv.
    + intros [= <-]. simpl. by exists id, n, s, true.
    + intros [= <-]. simpl. by exists id, s.
    + intros [= <-]. simpl. by exists id, n, s, false.
    + apply searchChilds_stopped; [| by eapply Q_kept].
      intros c s0 res0. apply IH.
  - intros [= <-]. exact Hs.
Qed.

Lemma postOrderSearch_stopped fuel id s res :
  Q s → postOrderSearch fuel g id visit s = Some res → stopped g visit Q res.
Proof.
  revert id s res. induction fuel as [| fuel IH]; intros id s res Hs; [done |].
  simpl. destruct (Nodes g !! id) as [n|] eqn:Hn.
  - destruct (searchChilds _ (childs n) s) as [[s1 [[m|] [e|]]] |] eqn:E; [| | | | done].
    1-3: intros [= <-];
      exact (searchChilds_stopped _ _ (λ c s0 res0, IH c s0 res0) _ _ Hs E).
    pose proof (searchChilds_stopped _ _ (λ c s0 res0, IH c s0 res0) _ _ Hs E) as Hs1.
    simpl in Hs1. destruct (visit n s1) as [s2 [[|] [e|]]] eqn:Hv.
    + intros [= <-]. simpl. by exists id, n, s1, true.
    + intros [= <-]. simpl. by exists id, s1.
    + intros [= <-]. simpl. by exists id, n, s1, false.
    + intros [= <-]. simpl. by eapply Q_kept.
  - intros [= <-]. exact Hs.
Qed.

End Stopped.

End Search.

(** The loop over the children, for searches that collect: each child adds
    a sequence related to it by [R]. *)
Lemma searchChilds_collect (R : string → list string → Prop)
    (search : string → list string → option (list string * @found D)) cs :
  (∀ c acc acc1 r, c ∈ cs → search c acc = Some (acc1, r) →
     r = (None, None) ∧ ∃ l, acc1 = acc ++ l ∧ R c l) →
  ∀ acc acc1 r, searchChilds search cs acc = Some (acc1, r) →
    r = (None, None) ∧ ∃ ls, acc1 = acc ++ concat ls ∧ Forall2 R cs ls.
Proof.
  induction cs as [| c cs IH]; intros H acc acc1 r; simpl.
  - intros [= <- <-]. split; [done |]. exists []. by rewrite app_nil_r.
  - destruct (search c acc) as [[a1 r1] |] eqn:E; [| done].
    destruct (H c acc a1 r1 (list_elem_of_here _ _) E) as [-> (l & -> & Hl)].
    intros Hrest. destruct (IH (λ c' a a' r' Hc', H c' a a' r' (list_elem_of_further _ _ _ Hc'))
                              _ _ _ Hrest) as [-> (ls & -> & Hls)].
    split; [done |]. exists (l :: ls). simpl. rewrite app_assoc.
    split; [done | by constructor].
Qed.

Lemma walksFrom_nonempty fuel g id p : p ∈ walksFrom fuel g id → p ≠ [].
Proof.
  destruct fuel as [| fuel]; simpl; [by intros ?%elem_of_nil |].
  destruct (Nodes g !! id) as [n|]; [| by intros ?%elem_of_nil].
  intros [-> | Hin]%elem_of_cons; [done |].
  apply list_elem_of_fmap in Hin as (q & -> & _). done.
Qed.

Lemma endOf_cons a p : p ≠ [] → endOf (a :: p) = endOf p.
Proof. by destruct p. Qed.

Lemma ends_under a (ws : list (list string)) :
  (∀ p, p ∈ ws → p ≠ []) → map endOf (map (cons a) ws) = map endOf ws.
Proof.
  induction ws as [| w ws IH]; intros H; simpl; [done |].
  rewrite endOf_cons by (apply H, list_elem_of_here).
  f_equal. apply IH. intros p Hp. apply H. by apply elem_of_cons; right.
Qed.

Lemma ends_walksFrom_succ fuel g id n :
  Nodes g !! id = Some n →
  map endOf (walksFrom (S fuel) g id)
    = id :: map endOf (flat_map (walksFrom fuel g) (childs n)).
Proof.
  intros Hn. simpl. rewrite Hn. simpl. f_equal. apply ends_under.
  intros p (c & _ & Hp)%list_elem_of_In%in_flat_map.
  by eapply walksFrom_nonempty, list_elem_of_In.
Qed.

Lemma ends_flat_map (W : string → list (list string)) cs ls :
  Forall2 (λ c l, l = map endOf (W c)) cs ls →
  concat ls = map endOf (flat_map W cs).
Proof.
  induction 1 as [| c l cs ls -> _ IH]; simpl; [done |].
  by rewrite map_app, IH.
Qed.

Lemma ends_flat_map_perm (W : string → list (list string)) cs ls :
  Forall2 (λ c l, l ≡ₚ map endOf (W c)) cs ls →
  concat ls ≡ₚ map endOf (flat_map W cs).
Proof.
  induction 1 as [| c l cs ls Hl _ IH]; simpl; [done |].
  by rewrite map_app, IH, Hl.
Qed.

Lemma preOrderSearch_collect g fuel id acc acc1 r :
  keyed g →
  preOrderSearch fuel g id collect acc = Some (acc1, r) →
  r = (None, None) ∧ ∃ l, acc1 = acc ++ l ∧ l = map endOf (walksFrom fuel g id).
Proof.
  intros Hk. revert id acc acc1 r.
  induction fuel as [| fuel IH]; intros id acc acc1 r; [done |].
  cbn [preOrderSearch]. destruct (Nodes g !! id) as [n|] eqn:Hn.
  - unfold collect at 1. intros H.
    apply (searchChilds_collect (λ c l, l = map endOf (walksFrom fuel g c))) in H
      as [-> (ls & -> & Hls)]; [| intros c a a1 r1 _; apply IH].
    split; [done |]. exists (ID n :: concat ls).
    rewrite <- app_assoc. split; [done |].
    rewrite (ends_walksFrom_succ _ _ _ _ Hn), (ends_flat_map _ _ _ Hls).
    by rewrite (Hk id n Hn).
  - intros [= <- <-]. split; [done |]. exists []. rewrite app_nil_r.
    split; [done |]. simpl. by rewrite Hn.
Qed.

Lemma postOrderSearch_collect g fuel id acc acc1 r :
  keyed g →
  postOrderSearch fuel g id collect acc = Some (acc1, r) →
  r = (None, None) ∧ ∃ l, acc1 = acc ++ l ∧ l ≡ₚ map endOf (walksFrom fuel g id).
Proof.
  intros Hk. revert id acc acc1 r.
  induction fuel as [| fuel IH]; intros id acc acc1 r; [done |].
  cbn [postOrderSearch]. destruct (Nodes g !! id) as [n|] eqn:Hn.
  - destruct (searchChilds _ (childs n) acc) as [[a1 r1] |] eqn:E; [| done].
    apply (searchChilds_collect (λ c l, l ≡ₚ map endOf (walksFrom fuel g c))) in E
      as [-> (ls & -> & Hls)]; [| intros c a a2 r2 _; apply IH].
    unfold collect. intros [= <- <-]. split; [done |].
    exists (concat ls ++ [ID n]). rewrite <- app_assoc. split; [done |].
    rewrite (ends_walksFrom_succ _ _ _ _ Hn), (ends_flat_map_perm _ _ _ Hls).
    rewrite (Hk id n Hn). by rewrite <- Permutation_cons_append.
  - intros [= <- <-]. split; [done |]. exists []. rewrite app_nil_r.
    split; [done |]. simpl. by rewrite Hn.
Qed.

(** The walks [walksFrom] lists are the walks of at most [fuel] nodes. *)
Lemma walksFrom_walk g fuel id p :
  p ∈ walksFrom fuel g id ↔ walk g id p ∧ (length p ≤ fuel)%nat.
Proof.
  revert id p. induction fuel as [| fuel IH]; intros id p.
  - simpl. split; [by intros ?%elem_of_nil |].
    intros [Hw Hl]. destruct Hw; simpl in Hl; lia.
  - simpl. destruct (Nodes g !! id) as [n|] eqn:Hn.
    + rewrite elem_of_cons, list_elem_of_fmap. split.
      * intros [-> | (q & -> & Hq)].
        -- split; [by eapply walk_one | simpl; lia].
        -- apply list_elem_of_In, in_flat_map in Hq as (c & Hc & Hq).
           apply list_elem_of_In in Hc, Hq. apply IH in Hq as [Hw Hl].
           split; [by eapply walk_cons | simpl; lia].
      * intros [Hw Hl]. destruct Hw as [a m Ha | a m b q Ha Hb Hq]; [by left |].
        right. exists q. split; [done |].
        apply list_elem_of_In, in_flat_map. exists b.
        assert (m = n) as -> by congruence.
        split; [by apply list_elem_of_In |].
        apply list_elem_of_In, IH. split; [done | simpl in Hl; lia].
    + split; [by intros ?%elem_of_nil |].
      intros [Hw _]. destruct Hw; congruence.
Qed.

Lemma walk_length rk g id p : ranked rk g → walk g id p → (length p ≤ S (rk id))%nat.
Proof.
  intros Hr. induction 1 as [a n Ha | a n b q Ha Hb Hq IH]; simpl; [lia |].
  pose proof (ranked_child _ _ _ _ _ Hr Ha Hb). lia.
Qed.

Lemma flat_map_ends (W : string → list (list string)) cs :
  flat_map (λ c, map endOf (W c)) cs = map endOf (flat_map W cs).
Proof.
  induction cs as [| c cs IH]; [done |].
  cbn [flat_map]. rewrite map_app. by f_equal.
Qed.

Lemma find_app_first {A} (P : A → bool) l1 l2 :
  find P (l1 ++ l2) = match find P l1 with Some x => Some x | None => find P l2 end.
Proof. induction l1 as [| a l1 IH]; simpl; [done |]. by destruct (P a). Qed.

(** A search whose visitor stops at the first node whose ID satisfies [P],
    and leaves the state alone before that. *)
Section First.

Context {St : Type}.
Variable g : graph D.
Variable visit : @visitor D St.
Variable P : string → bool.
Variable upd : node D → St.
Variable s : St.
Hypothesis visit_first :
  ∀ n, visit n s = if P (ID n) then (upd n, (true, None)) else (s, (false, None)).

Definition firstOf (l : list string) (res : St * @found D) : Prop :=
  match find P l with
  | Some x => ∃ n, Nodes g !! x = Some n ∧ res = (upd n, (Some n, None))
  | None => res = (s, (None, None))
  end.

Lemma searchChilds_first (search : string → St → option (St * @found D))
    (L : string → list string) cs res :
  (∀ c res0, search c s = Some res0 → firstOf (L c) res0) →
  searchChilds search cs s = Some res → firstOf (flat_map L cs) res.
Proof.
  intros H. induction cs as [| c cs IH]; simpl.
  - by intros [= <-].
  - destruct (search c s) as [res0 |] eqn:E; [| done].
    pose proof (H _ _ E) as H0. unfold firstOf in *. rewrite find_app_first.
    destruct (find P (L c)) as [x|].
    + destruct H0 as (n & Hn & ->). intros [= <-]. eauto.
    + subst res0. exact IH.
Qed.

Lemma preOrderSearch_first fuel id res :
  keyed g →
  preOrderSearch fuel g id visit s = Some res →
  firstOf (map endOf (walksFrom fuel g id)) res.
Proof.
  intros Hk. revert id res. induction fuel as [| fuel IH]; intros id res; [done |].
  cbn [preOrderSearch]. destruct (Nodes g !! id) as [n|] eqn:Hn.
  - rewrite (ends_walksFrom_succ _ _ _ _ Hn), visit_first.
    pose proof (Hk id n Hn) as Hid. simpl in Hid. rewrite Hid.
    unfold firstOf. simpl. destruct (P id).
    + intros [= <-]. eauto.
    + intros H.
      apply (searchChilds_first _ (λ c, map endOf (walksFrom fuel g c))) in H;
        [| intros c res0; apply IH].
      by rewrite <- flat_map_ends.
  - intros [= <-]. unfold firstOf. simpl. by rewrite Hn.
Qed.

End First.

(** *** removeNode *)

Lemma filter_drop_twice (id : string) (l : list string) :
  filter (λ x, x ≠ id) (filter (λ x, x ≠ id) l) = filter (λ x, x ≠ id) l.
Proof.
  induction l as [| a l IH]; [done |].
  rewrite filter_cons. destruct (decide (a ≠ id)) as [Ha | Ha]; [| exact IH].
  rewrite filter_cons. destruct (decide (a ≠ id)); [by rewrite IH | done].
Qed.

(** A node after some of the parents of [id] dropped [id]: the same node,
    with [id] possibly gone from its children. *)
Lemma dropped_lookup (id : string) (ps : list string) (M : gmap string (node D)) k m1 :
  foldr (λ p m, alter (dropChild id) p m) M ps !! k = Some m1 →
  ∃ m, M !! k = Some m ∧
       ID m1 = ID m ∧ Dependency m1 = Dependency m ∧ parents m1 = parents m ∧
       (childs m1 = childs m ∨ childs m1 = filter (λ x, x ≠ id) (childs m)) ∧
       (k ∈ ps → childs m1 = filter (λ x, x ≠ id) (childs m)).
Proof.
  revert m1. induction ps as [| p ps IH]; intros m1; simpl.
  - intros H. exists m1. repeat split; try done; [by left |].
    by intros ?%elem_of_nil.
  - rewrite lookup_alter_Some. intros [(-> & m0 & H0 & ->) | (Hne & H0)].
    + destruct (IH _ H0) as (m & Hm & Hi & Hd & Hp & Hc & Hin).
      exists m. simpl. repeat split; try done.
      * right. destruct Hc as [-> | ->]; [done | apply filter_drop_twice].
      * intros _. destruct Hc as [-> | ->]; [done | apply filter_drop_twice].
    + destruct (IH _ H0) as (m & Hm & Hi & Hd & Hp & Hc & Hin).
      exists m. repeat split; try done.
      intros [? | ?]%elem_of_cons; [congruence | by apply Hin].
Qed.

Lemma removeNode_Root id g : Root (removeNode id g) = Root g.
Proof. unfold removeNode. by destruct (Nodes g !! id). Qed.

Lemma removeNode_gone id g : Nodes (removeNode id g) !! id = None.
Proof.
  unfold removeNode. destruct (Nodes g !! id) eqn:E; [| done].
  simpl. apply lookup_delete_eq.
Qed.

Lemma removeNode_lookup id g k m1 :
  Nodes (removeNode id g) !! k = Some m1 →
  ∃ m, Nodes g !! k = Some m ∧
       ID m1 = ID m ∧ Dependency m1 = Dependency m ∧ parents m1 = parents m ∧
       (childs m1 = childs m ∨ childs m1 = filter (λ x, x ≠ id) (childs m)).
Proof.
  unfold removeNode. destruct (Nodes g !! id) as [n|] eqn:E.
  - simpl. rewrite lookup_delete_Some. intros [_ H].
    destruct (dropped_lookup _ _ _ _ _ H) as (m & ? & ? & ? & ? & ? & _).
    by exists m.
  - intros H. exists m1. repeat split; try done. by left.
Qed.

Lemma removeNode_detached id g k m1 :
  backReferenced g →
  Nodes (removeNode id g) !! k = Some m1 → id ∉ childs m1.
Proof.
  intros Hb. unfold removeNode. destruct (Nodes g !! id) as [n|] eqn:E.
  - simpl. rewrite lookup_delete_Some. intros [_ H].
    destruct (dropped_lookup _ _ _ _ _ H) as (m & Hm & _ & _ & _ & Hc & Hin).
    intros Hid.
    assert (id ∈ childs m) as Hidm.
    { destruct Hc as [<- | Hc]; [done |].
      rewrite Hc in Hid. by apply list_elem_of_filter in Hid as [? _]. }
    specialize (Hb k m Hm). simpl in Hb. rewrite Forall_forall in Hb.
    destruct (Hb id Hidm) as (m0 & Hm0 & Hk).
    assert (m0 = n) as -> by congruence.
    rewrite (Hin Hk) in Hid. by apply list_elem_of_filter in Hid as [? _].
  - intros Hm Hid. specialize (Hb k m1 Hm). simpl in Hb.
    rewrite Forall_forall in Hb. destruct (Hb id Hid) as (m0 & Hm0 & _). congruence.
Qed.

Lemma count_ends (W : list (list string)) (x : string) :
  length (filter (λ y, y = x) (map endOf W)) = length (filter (λ p, endOf p = x) W).
Proof.
  induction W as [| w W IH]; [done |].
  simpl. rewrite !filter_cons. destruct (decide (endOf w = x)); simpl; by rewrite IH.
Qed.

End WithPayload.

(** C2.  The graph of the test, built by the insertions in their order, is
    traversed in pre-order as [root, A, B, D, E, C, B, D, E] and in
    post-order as [A, D, E, B, D, E, B, C, root] (A, B, C the children of
    the root, D the child of B, E the child of D).  In general, on a graph
    without cycles, both traversals visit one node per walk from the start:
    the pre-order sequence lists the ends of the walks in depth-first
    order, the post-order sequence is a rearrangement of it, and a node is
    visited as many times as there are walks that end at it. *)
Theorem traversal_orders :
  preOrder TestGraph.fuel TestGraph.testGraph "root"
    = Some ["root"; "rootChild1"; "rootChild2"; "rootChild2Child1";
            "rootChild2Child1Child1"; "rootChild3"; "rootChild2";
            "rootChild2Child1"; "rootChild2Child1Child1"] ∧
  postOrder TestGraph.fuel TestGraph.testGraph "root"
    = Some ["rootChild1"; "rootChild2Child1Child1"; "rootChild2Child1";
            "rootChild2"; "rootChild2Child1Child1"; "rootChild2Child1";
            "rootChild2"; "rootChild3"; "root"] ∧
  ∀ (D : Type) (g : graph D) (rk : string → nat) (fuel : nat) (id : string),
    keyed g → ranked rk g → rk id < fuel →
    ∃ pre post,
      preOrder fuel g id = Some pre ∧
      postOrder fuel g id = Some post ∧
      pre = map endOf (walksFrom fuel g id) ∧
      post ≡ₚ pre ∧
      (∀ p, p ∈ walksFrom fuel g id ↔ walk g id p) ∧
      (∀ x, length (filter (λ y, y = x) pre)
              = length (filter (λ p, endOf p = x) (walksFrom fuel g id))) ∧
      (∀ x, length (filter (λ y, y = x) post)
              = length (filter (λ p, endOf p = x) (walksFrom fuel g id))).
Proof.
  split; [by vm_compute |]. split; [by vm_compute |].
  intros D g rk fuel id Hk Hr Hlt.
  destruct (preOrderSearch_returns rk g collect fuel id [] Hr Hlt) as [[pre r1] E1].
  destruct (postOrderSearch_returns rk g collect fuel id [] Hr Hlt) as [[post r2] E2].
  destruct (preOrderSearch_collect g fuel id [] pre r1 Hk E1) as [_ (l1 & -> & ->)].
  destruct (postOrderSearch_collect g fuel id [] post r2 Hk E2) as [_ (l2 & -> & Hp)].
  exists (map endOf (walksFrom fuel g id)), l2.
  unfold preOrder, postOrder. rewrite E1, E2. simpl.
  split; [done |]. split; [done |]. split; [done |]. split; [done |].
  split; [| split].
  - intros p. rewrite walksFrom_walk. split; [by intros [? _] |].
    intros Hw. split; [done |]. pose proof (walk_length rk g id p Hr Hw). lia.
  - intros x. apply count_ends.
  - intros x. rewrite <- count_ends. by rewrite Hp.
Qed.

End GraphFacts.

(** ** The orchestrator *)

Module OrchestratorFacts.
Import Dep Orchestrator.

Section WithWorld.

Context {W : Type}.
Variable pluginHook : string → string → Dependency → state W (option error).
Variable logStream : Dependency → W → string.
Variable NumCPU : Z.
Variable fuel : nat.
Variables skipDependencies filterDependencies : list string.
Variables reverse verbose : bool.
Variable actionName : string.
Variable action : Dependency → state W (option error).

Implicit Types st : hstate W.
Implicit Types n : node Dependency.
Implicit Types g : graph Dependency.

Local Abbreviation performAction :=
  (performAction pluginHook logStream skipDependencies filterDependencies
     verbose actionName action).
Local Abbreviation runWork :=
  (runWork pluginHook logStream skipDependencies filterDependencies
     reverse verbose actionName action).
Local Abbreviation nextNode := (nextNode fuel reverse).
Local Abbreviation provide := (@provide W fuel reverse).

(** [st1] is [st] but for the world. *)
Definition worldOnly st st1 : Prop := st1 = withWorld (world st1) st.

Lemma worldOnly_refl st : worldOnly st st.
Proof. by destruct st. Qed.

Lemma dependencyHook_worldOnly phase d st :
  worldOnly st (dependencyHook pluginHook phase actionName d st).1.
Proof.
  unfold dependencyHook. destruct (bool_decide _); [| apply worldOnly_refl].
  unfold inWorld. by destruct (pluginHook _ _ _ _).
Qed.

(** What [performAction] may do to the state of the call. *)
Inductive performed n st : hstate W → option error → Prop :=
  | performed_idle st1 r :
      worldOnly st st1 → performed n st st1 r
  | performed_failed st1 r :
      Graph.ID n ≠ Graph.Root (dependencyTree st) →
      foundDependency (Name (Graph.Dependency n)) filterDependencies = true →
      skipDependency (Name (Graph.Dependency n)) skipDependencies = false →
      worldOnly {| dependencyTree := dependencyTree st; visited := visited st;
                   executedDependencies := executedDependencies st;
                   world := world st; handed := handed st;
                   acted := acted st ++ [Graph.ID n] |} st1 →
      performed n st st1 r
  | performed_done st1 :
      Graph.ID n ≠ Graph.Root (dependencyTree st) →
      foundDependency (Name (Graph.Dependency n)) filterDependencies = true →
      skipDependency (Name (Graph.Dependency n)) skipDependencies = false →
      st1 = {| dependencyTree := dependencyTree st; visited := visited st;
               executedDependencies :=
                 executedDependencies st ++ [Graph.Dependency n];
               world := world st1; handed := handed st;
               acted := acted st ++ [Graph.ID n] |} →
      performed n st st1 None.

Lemma performAction_performed n st st1 r :
  performAction n st = (st1, r) → performed n st st1 r.
Proof.
  unfold Orchestrator.performAction.
  destruct (bool_decide (Graph.ID n = _)) eqn:Hroot;
    [intros [= <- <-]; apply performed_idle, worldOnly_refl |].
  apply bool_decide_eq_false in Hroot.
  destruct (foundDependency _ _) eqn:Hf; simpl;
    [| intros [= <- <-]; apply performed_idle, worldOnly_refl].
  destruct (skipDependency _ _) eqn:Hs;
    [intros [= <- <-]; apply performed_idle, worldOnly_refl |].
  unfold bind.
  pose proof (dependencyHook_worldOnly "before" (Graph.Dependency n) st) as H1.
  destruct (dependencyHook _ "before" _ _ st) as [sa [e1|]]; simpl in H1;
    [intros [= <- <-]; by apply performed_idle |].
  unfold callAction.
  destruct (action (Graph.Dependency n) (world sa)) as [w2 r2] eqn:Ha.
  set (sb := {| dependencyTree := dependencyTree sa; visited := visited sa;
                executedDependencies := executedDependencies sa; world := w2;
                handed := handed sa; acted := acted sa ++ [Graph.ID n] |}).
  destruct r2 as [e2|].
  - pose proof (dependencyHook_worldOnly "error" (Graph.Dependency n) sb) as H3.
    destruct (dependencyHook _ "error" _ _ sb) as [sc [e3|]]; simpl in H3;
      intros [= <- <-]; apply performed_failed; try done;
      unfold worldOnly in *; rewrite H3; subst sb; rewrite H1; done.
  - pose proof (dependencyHook_worldOnly "after" (Graph.Dependency n) sb) as H3.
    destruct (dependencyHook _ "after" _ _ sb) as [sc [e3|]]; simpl in H3.
    + intros [= <- <-]; apply performed_failed; try done;
      unfold worldOnly in *; rewrite H3; subst sb; rewrite H1; done.
    + unfold ret, appendExecuted. intros [= <- <-]. apply performed_done; try done.
      unfold worldOnly in *. rewrite H3. subst sb. rewrite H1. done.
Qed.

(** *** The provider *)

(** What one traversal of the provider may answer. *)
Definition selected g (v v1 : gmap string string) (r : @found Dependency) : Prop :=
  match r with
  | (_, Some e) => False
  | (Some n, None) =>
      (∃ k, Nodes g !! k = Some n) ∧
      Graph.ID n ≠ Graph.Root g ∧
      v !! Graph.ID n = None ∧
      v1 = <[Graph.ID n := Graph.ID n]> v ∧
      (reverse = false → childs n = [])
  | (None, None) => v1 = v
  end.

Lemma visitReverse_kept rootID n (v v1 : gmap string string) :
  visitReverse rootID n v = (v1, (false, None)) → v1 = v.
Proof.
  unfold visitReverse. repeat case_bool_decide; by intros [= <-].
Qed.

Lemma visitForward_kept rootID n (v v1 : gmap string string) :
  visitForward rootID n v = (v1, (false, None)) → v1 = v.
Proof.
  unfold visitForward. repeat case_bool_decide; by intros [= <-].
Qed.

Lemma nextNode_selected g v v1 r :
  nextNode g v = Some (v1, r) → selected g v v1 r.
Proof.
  unfold Orchestrator.nextNode. destruct reverse eqn:Hrev; intros H.
  - apply (GraphFacts.preOrderSearch_stopped g _ (λ s, s = v)) in H;
      [| intros n s s1 ->; apply visitReverse_kept | done].
    destruct r as [[n|] [e|]]; simpl in H |- *.
    + destruct H as (k & m & s0 & b & -> & _ & Hv). revert Hv.
      unfold visitReverse. repeat case_bool_decide; by intros [=].
    + destruct H as (k & s0 & -> & Hk & Hv). revert Hv.
      unfold visitReverse. repeat case_bool_decide; intros [=]; subst.
      split; [by exists k |]. done.
    + destruct H as (k & m & s0 & b & -> & _ & Hv). revert Hv.
      unfold visitReverse. repeat case_bool_decide; by intros [=].
    + done.
  - apply (GraphFacts.postOrderSearch_stopped g _ (λ s, s = v)) in H;
      [| intros n s s1 ->; apply visitForward_kept | done].
    destruct r as [[n|] [e|]]; simpl in H |- *.
    + destruct H as (k & m & s0 & b & -> & _ & Hv). revert Hv.
      unfold visitForward. repeat case_bool_decide; by intros [=].
    + destruct H as (k & s0 & -> & Hk & Hv). revert Hv.
      unfold visitForward. repeat case_bool_decide; intros [=]; subst.
      split; [by exists k |]. repeat split; try done.
      intros _. by apply nil_length_inv.
    + destruct H as (k & m & s0 & b & -> & _ & Hv). revert Hv.
      unfold visitForward. repeat case_bool_decide; by intros [=].
    + done.
Qed.

(** *** The work closure *)

Lemma runWork_performAction n st st1 r :
  runWork n st = (st1, r) →
  ∃ sp, performAction n st = (sp, r) ∧
        st1 = if reverse then sp
              else withTree (removeNode (Graph.ID n) (dependencyTree sp)) sp.
Proof.
  unfold Orchestrator.runWork. destruct reverse.
  - intros H. by exists st1.
  - unfold bind, ret. destruct (performAction n st) as [sp r0].
    intros [= <- <-]. by exists sp.
Qed.

Lemma performed_tree n st st1 r :
  performed n st st1 r → dependencyTree st1 = dependencyTree st.
Proof. intros [? ? -> | ? ? _ _ _ -> | ? _ _ _ ->]; done. Qed.

(** *** What holds throughout a call *)

(** [n] is a node of the resolved graph [g0], up to its edges. *)
Definition fromGraph g0 n : Prop :=
  ∃ k0 n0, Nodes g0 !! k0 = Some n0 ∧
           Graph.ID n0 = Graph.ID n ∧ Graph.Dependency n0 = Graph.Dependency n.

Record stateOK g0 st : Prop := {
  ok_root : Graph.Root (dependencyTree st) = Graph.Root g0;
  ok_nodes : ∀ k n, Nodes (dependencyTree st) !! k = Some n → fromGraph g0 n;
  ok_visited : ∀ x, x ∈ handed st → is_Some (visited st !! x);
  ok_handed : NoDup (handed st);
  ok_handed_root : Graph.Root g0 ∉ handed st;
  ok_acted : NoDup (acted st);
  ok_acted_handed : ∀ x, x ∈ acted st → x ∈ handed st;
  ok_executed :
    Forall (λ d, ∃ k0 n0, Nodes g0 !! k0 = Some n0 ∧
                          Graph.ID n0 ≠ Graph.Root g0 ∧ Graph.Dependency n0 = d)
      (executedDependencies st)
}.

(** The units of work the goroutines hold: handed out, not yet acted on,
    and no two for the same node. *)
Record pendingOK g0 st (ws : list (Scheduler.worker (node Dependency))) : Prop := {
  pe_held : ∀ i n, ws !! i = Some (Scheduler.Executing n) →
            Graph.ID n ∈ handed st ∧ (Graph.ID n ∉ acted st) ∧ fromGraph g0 n;
  pe_distinct : ∀ i j n m, i ≠ j →
            ws !! i = Some (Scheduler.Executing n) →
            ws !! j = Some (Scheduler.Executing m) → Graph.ID n ≠ Graph.ID m
}.

Definition coherent g0 (p : Scheduler.pool (hstate W) (node Dependency)) : Prop :=
  stateOK g0 (Scheduler.shared p) ∧
  pendingOK g0 (Scheduler.shared p) (Scheduler.workers p).

Lemma stateOK_initial g0 w : stateOK g0 (initial g0 w).
Proof.
  split; simpl; try done; try apply NoDup_nil_2; try by intros ? ?%elem_of_nil.
  - intros k n Hn. by exists k, n.
  - by intros ?%elem_of_nil.
Qed.

Lemma pendingOK_start g0 st c :
  pendingOK g0 st (replicate c Scheduler.Fetching).
Proof.
  split.
  - intros i n H. by apply lookup_replicate in H as [? _].
  - intros i j n m _ H. by apply lookup_replicate in H as [? _].
Qed.

(** A goroutine lets go of what it held (or held nothing): the others
    still hold theirs, if nothing else was acted on. *)
Lemma pendingOK_settle g0 st st1 ws i w1 :
  pendingOK g0 st ws →
  (∀ n, w1 ≠ Scheduler.Executing n) →
  handed st1 = handed st →
  (∀ x, x ∈ acted st1 →
        x ∈ acted st ∨ ∃ n, ws !! i = Some (Scheduler.Executing n) ∧ x = Graph.ID n) →
  pendingOK g0 st1 (<[i := w1]> ws).
Proof.
  intros [Hh Hd] Hw1 Hhanded Hacted. split.
  - intros j n Hj. destruct (decide (i = j)) as [-> | Hne].
    + apply list_lookup_insert_Some in Hj as [(_ & -> & _) | (? & _)]; [| done].
      by specialize (Hw1 n).
    + rewrite list_lookup_insert_ne in Hj by done.
      destruct (Hh j n Hj) as (H1 & H2 & H3). rewrite Hhanded.
      split; [done |]. split; [| done].
      intros [Ha | (m & Hm & Heq)]%Hacted; [done |].
      by apply (Hd i j m n Hne Hm Hj).
  - intros j k n m Hjk Hj Hk.
    destruct (decide (i = j)) as [-> | Hij].
    { apply list_lookup_insert_Some in Hj as [(_ & -> & _) | (? & _)]; [| done].
      by specialize (Hw1 n). }
    destruct (decide (i = k)) as [-> | Hik].
    { apply list_lookup_insert_Some in Hk as [(_ & -> & _) | (? & _)]; [| done].
      by specialize (Hw1 m). }
    rewrite list_lookup_insert_ne in Hj, Hk by done.
    exact (Hd j k n m Hjk Hj Hk).
Qed.

(** A goroutine that held nothing takes the unit for a node that was
    never handed out. *)
Lemma pendingOK_take g0 st st1 ws i n :
  pendingOK g0 st ws →
  (∀ m, ws !! i ≠ Some (Scheduler.Executing m)) →
  Graph.ID n ∉ handed st →
  (∀ x, x ∈ acted st → x ∈ handed st) →
  handed st1 = handed st ++ [Graph.ID n] →
  acted st1 = acted st →
  fromGraph g0 n →
  pendingOK g0 st1 (<[i := Scheduler.Executing n]> ws).
Proof.
  intros [Hh Hd] Hi Hnew Hsub Hhanded Hacted Hfrom. split.
  - intros j m Hj. rewrite Hhanded, Hacted.
    destruct (decide (i = j)) as [-> | Hne].
    + apply list_lookup_insert_Some in Hj as [(_ & [= <-] & _) | (? & _)]; [| done].
      split; [apply elem_of_app; right; apply list_elem_of_here |].
      split; [| done]. intros Ha. by apply Hnew, Hsub.
    + rewrite list_lookup_insert_ne in Hj by done.
      destruct (Hh j m Hj) as (H1 & H2 & H3).
      split; [by apply elem_of_app; left | done].
  - intros j k m1 m2 Hjk Hj Hk.
    destruct (decide (i = j)) as [-> | Hij].
    { apply list_lookup_insert_Some in Hj as [(_ & [= <-] & _) | (? & _)]; [| done].
      rewrite list_lookup_insert_ne in Hk by done.
      destruct (Hh k m2 Hk) as (H1 & _). intros Heq. apply Hnew. by rewrite Heq. }
    destruct (decide (i = k)) as [-> | Hik].
    { apply list_lookup_insert_Some in Hk as [(_ & [= <-] & _) | (? & _)]; [| done].
      rewrite list_lookup_insert_ne in Hj by done.
      destruct (Hh j m1 Hj) as (H1 & _). intros Heq. apply Hnew. by rewrite <- Heq. }
    rewrite list_lookup_insert_ne in Hj, Hk by done.
    exact (Hd j k m1 m2 Hjk Hj Hk).
Qed.

Lemma stateOK_performed g0 n st sp r :
  stateOK g0 st → performed n st sp r →
  Graph.ID n ∈ handed st → Graph.ID n ∉ acted st → fromGraph g0 n →
  stateOK g0 sp ∧ handed sp = handed st ∧
  (∀ x, x ∈ acted sp → x ∈ acted st ∨ x = Graph.ID n).
Proof.
  intros [H1 H2 H3 H4 H5 H6 H7 H8] Hp Hh Ha (k0 & n0 & Hn0 & Hid & Hdep).
  destruct Hp as [sp r Hw | sp r Hroot _ _ Hw | sp Hroot _ _ Hw]; rewrite Hw; simpl.
  - split; [by split |]. split; [done | by left].
  - split; [| split; [done |]].
    + split; simpl; try done.
      * apply NoDup_app. split; [done |]. split; [| apply NoDup_singleton].
        by intros x Hx ->%list_elem_of_singleton.
      * intros x [Hx | ->%list_elem_of_singleton]%elem_of_app; [by apply H7 | done].
    + intros x [Hx | ->%list_elem_of_singleton]%elem_of_app; [by left | by right].
  - split; [| split; [done |]].
    + split; simpl; try done.
      * apply NoDup_app. split; [done |]. split; [| apply NoDup_singleton].
        by intros x Hx ->%list_elem_of_singleton.
      * intros x [Hx | ->%list_elem_of_singleton]%elem_of_app; [by apply H7 | done].
      * apply Forall_app. split; [done |]. apply Forall_singleton.
        exists k0, n0. split; [done |]. split; [| done].
        rewrite Hid, <- H1. exact Hroot.
    + intros x [Hx | ->%list_elem_of_singleton]%elem_of_app; [by left | by right].
Qed.

Lemma stateOK_removeNode g0 id sp :
  stateOK g0 sp → stateOK g0 (withTree (removeNode id (dependencyTree sp)) sp).
Proof.
  intros [H1 H2 H3 H4 H5 H6 H7 H8]. split; simpl; try done.
  - by rewrite GraphFacts.removeNode_Root.
  - intros k n Hn.
    apply GraphFacts.removeNode_lookup in Hn as (m & Hm & Hi & Hd & _).
    destruct (H2 k m Hm) as (k0 & n0 & Hn0 & Hi0 & Hd0).
    exists k0, n0. split; [done |]. split; congruence.
Qed.

Section Run.

Variable sch : Scheduler.scheduler (hstate W) (node Dependency).
Hypothesis sch_next : Scheduler.next sch = provide.

Lemma coherent_step g0 i p :
  coherent g0 p → coherent g0 (Scheduler.step runWork sch i p).
Proof.
  intros [Hs Hp]. unfold Scheduler.step.
  destruct (Scheduler.workers p !! i) as [[| n | e] |] eqn:Hw; [| | done | done].
  - rewrite sch_next. unfold Orchestrator.provide.
    destruct (nextNode _ _) as [[v [[n|] [e|]]] |] eqn:Hn; [| | | | done];
      apply nextNode_selected in Hn; simpl in Hn; try done.
    + destruct Hn as ((k & Hk) & Hroot & Hv & -> & _).
      assert (Graph.ID n ∉ handed (Scheduler.shared p)) as Hnew.
      { intros Hin. apply (ok_visited _ _ Hs) in Hin as [? Hin]. congruence. }
      split; simpl.
      * destruct Hs as [H1 H2 H3 H4 H5 H6 H7 H8]. split; simpl; try done.
        -- intros x [Hx | ->%list_elem_of_singleton]%elem_of_app.
           ++ destruct (decide (Graph.ID n = x)) as [-> | Hne];
                [by rewrite lookup_insert_eq | by rewrite lookup_insert_ne; auto].
           ++ by rewrite lookup_insert_eq.
        -- apply NoDup_app. split; [done |]. split; [| apply NoDup_singleton].
           by intros x Hx ->%list_elem_of_singleton.
        -- intros [Hx | Hx%list_elem_of_singleton]%elem_of_app; [done |].
           apply Hroot. by rewrite H1.
        -- intros x Hx. apply elem_of_app. left. by apply H7.
      * eapply (pendingOK_take g0 (Scheduler.shared p)); try done.
        -- intros m. by rewrite Hw.
        -- apply (ok_acted_handed _ _ Hs).
        -- by apply (ok_nodes _ _ Hs k).
    + subst v. split; simpl.
      * by destruct Hs.
      * eapply (pendingOK_settle g0 (Scheduler.shared p)); try done.
        intros x Hx. by left.
  - destruct (Orchestrator.runWork _ _ _ _ _ _ _ _ n (Scheduler.shared p))
      as [st1 r] eqn:Hr.
    apply runWork_performAction in Hr as (sp & Hpa & Hst1).
    apply performAction_performed in Hpa.
    destruct (pe_held _ _ _ Hp i n Hw) as (Hh & Ha & Hfrom).
    destruct (stateOK_performed g0 n _ sp r Hs Hpa Hh Ha Hfrom) as (Hsp & Hhanded & Hacted).
    assert (stateOK g0 st1 ∧ handed st1 = handed sp ∧ acted st1 = acted sp)
      as (Hok & E1 & E2).
    { subst st1. destruct reverse; [done |].
      split; [by apply stateOK_removeNode | done]. }
    assert (∀ w1, (∀ m, w1 ≠ Scheduler.Executing m) →
                  pendingOK g0 st1 (<[i := w1]> (Scheduler.workers p))) as Hpend.
    { intros w1 Hw1. eapply (pendingOK_settle g0 (Scheduler.shared p)); try done.
      - congruence.
      - rewrite E2. intros x [Hx | ->]%Hacted; [by left |]. right. by exists n. }
    destruct r as [e|]; split; simpl; try done; by apply Hpend.
Qed.

Lemma coherent_exec g0 sched p :
  coherent g0 p → coherent g0 (Scheduler.exec runWork sch sched p).
Proof.
  revert p. induction sched as [| i sched IH]; intros p Hp; [done |].
  simpl. apply IH, coherent_step, Hp.
Qed.

Lemma coherent_start g0 w :
  coherent g0 (Scheduler.start sch (initial g0 w)).
Proof. split; simpl; [apply stateOK_initial | apply pendingOK_start]. Qed.

End Run.

End WithWorld.

Section Claims.

Context {W : Type}.
Variable pluginHook : string → string → Dependency → state W (option error).
Variable logStream : Dependency → W → string.
Variable NumCPU : Z.
Variable fuel : nat.
Variables skipDependencies filterDependencies : list string.
Variable verbose : bool.
Variable actionName : string.
Variable action : Dependency → state W (option error).

Implicit Types st : hstate W.
Implicit Types n : node Dependency.
Implicit Types g : graph Dependency.

Local Abbreviation performAction :=
  (Orchestrator.performAction pluginHook logStream skipDependencies
     filterDependencies verbose actionName action).
Local Abbreviation runWork :=
  (Orchestrator.runWork pluginHook logStream skipDependencies filterDependencies).
Local Abbreviation work := (λ reverse, runWork reverse verbose actionName action).
Local Abbreviation provide := (@Orchestrator.provide W fuel).
Local Abbreviation scheduler := (@Orchestrator.scheduler W NumCPU fuel).

(** The nodes the reverse provider may pick: any node but the root whose
    ID is not in [visited]. *)
Definition eligible g (v : gmap string string) (x : string) : bool :=
  bool_decide (x ≠ Graph.Root g) && bool_decide (v !! x = None).

(** C1, as the code has it.  In a reverse (purge) call the provider
    traverses the graph in pre-order and picks the first node that is not
    the root and not yet visited, whether or not it has children; it marks
    the node visited and returns the work closure for it.  That closure
    calls [performAction] and nothing else: it leaves the graph as it is (it
    is the forward closure that removes the node), so what later calls of
    the provider may pick depends on [visited] alone.  When no such node is
    left, the provider returns no work. *)
Theorem reverse_provider (rk : string → nat) st :
  keyed (dependencyTree st) →
  ranked rk (dependencyTree st) →
  rk (Graph.Root (dependencyTree st)) < fuel →
  let g := dependencyTree st in
  ∃ pre,
    preOrder fuel g (Graph.Root g) = Some pre ∧
    match find (eligible g (visited st)) pre with
    | Some x =>
        ∃ n, Nodes g !! x = Some n ∧ Graph.ID n = x ∧
             provide true st
               = Some (hand x (withVisited (<[x := x]> (visited st)) st),
                       (Some n, None)) ∧
             (∀ s, work true n s = performAction n s) ∧
             (∀ s, dependencyTree (work true n s).1 = dependencyTree s)
    | None => provide true st = Some (st, (None, None))
    end.
Proof.
  intros Hk Hr Hlt g.
  destruct (GraphFacts.preOrderSearch_returns rk g collect fuel (Graph.Root g) []
              Hr Hlt) as [[pre r1] E1].
  destruct (GraphFacts.preOrderSearch_collect g fuel _ [] pre r1 Hk E1)
    as [_ (l1 & -> & ->)].
  exists (map endOf (walksFrom fuel g (Graph.Root g))).
  split; [unfold preOrder; by rewrite E1 |].
  destruct (GraphFacts.preOrderSearch_returns rk g (visitReverse (Graph.Root g)) fuel
              (Graph.Root g) (visited st) Hr Hlt) as [res E2].
  pose proof (GraphFacts.preOrderSearch_first g (visitReverse (Graph.Root g))
                (eligible g (visited st))
                (λ n, <[Graph.ID n := Graph.ID n]> (visited st)) (visited st)) as Hfirst.
  specialize (Hfirst ltac:(intros n; unfold visitReverse, eligible;
                           repeat case_bool_decide; simpl; done)
                fuel (Graph.Root g) res Hk E2).
  unfold GraphFacts.firstOf in Hfirst.
  unfold Orchestrator.provide, nextNode. fold g. rewrite E2.
  destruct (find _ _) as [x|].
  - destruct Hfirst as (n & Hn & ->). exists n.
    pose proof (Hk x n Hn) as Hid. simpl in Hid.
    split; [done |]. split; [done |]. split; [by rewrite Hid |].
    split; [done |]. intros s. unfold Orchestrator.runWork.
    destruct (performAction n s) as [sp r] eqn:E.
    apply performAction_performed in E. simpl. by apply performed_tree in E.
  - subst res. by destruct st.
Qed.

(** C7.  In both directions the root is never acted on: [performAction]
    returns nil at once for it and changes nothing, the provider never
    returns work for it, and, however the goroutines interleave, the root
    is never among the nodes handed out or acted on, and every dependency
    in the executed list is the payload of a node other than the root. *)
Theorem root_never_acted (reverse : bool) (concurrency : Z) (g0 : graph Dependency)
    (w : W) (sched : list nat) :
  let sch := scheduler reverse concurrency in
  let p := Scheduler.exec (work reverse) sch sched (Scheduler.start sch (initial g0 w)) in
  (∀ n st, Graph.ID n = Graph.Root (dependencyTree st) →
           performAction n st = (st, None)) ∧
  (∀ st st1 n e, provide reverse st = Some (st1, (Some n, e)) →
                 Graph.ID n ≠ Graph.Root (dependencyTree st)) ∧
  (Graph.Root g0 ∉ handed (Scheduler.shared p)) ∧
  (Graph.Root g0 ∉ acted (Scheduler.shared p)) ∧
  Forall (λ d, ∃ k0 n0, Nodes g0 !! k0 = Some n0 ∧
                        Graph.ID n0 ≠ Graph.Root g0 ∧ Graph.Dependency n0 = d)
    (executedDependencies (Scheduler.shared p)).
Proof.
  intros sch p. split; [| split].
  - intros n st Hroot. unfold Orchestrator.performAction.
    by rewrite bool_decide_true.
  - intros st st1 n e. unfold Orchestrator.provide.
    destruct (nextNode fuel reverse _ _) as [[v [[m|] [e0|]]] |] eqn:Hn;
      [apply nextNode_selected in Hn; simpl in Hn .. | done].
    1, 3: done.
    + intros [= _ <- _]. by destruct Hn as (_ & ? & _).
    + by intros [=].
  - assert (coherent g0 p) as [Hs _].
    { subst p. eapply coherent_exec; [done | apply coherent_start]. }
    split; [apply (ok_handed_root _ _ Hs) |]. split; [| apply (ok_executed _ _ Hs)].
    intros Ha. by apply (ok_handed_root _ _ Hs), (ok_acted_handed _ _ Hs).
Qed.

(** C10.  The forward work closure removes the node it was made for
    whatever [performAction] does: it returns the result of [performAction]
    and leaves the graph with that node removed, so the node is no longer
    registered and (the back-references being in place) no longer a child
    of any node.  When the dependency is left out by the filter list or
    named in the skip list, the action callback is not called: the closure
    returns nil and only the graph changes. *)
Theorem forward_work_removes n st :
  let res := work false n st in
  let act := performAction n st in
  res.2 = act.2 ∧
  res.1 = withTree (removeNode (Graph.ID n) (dependencyTree st)) act.1 ∧
  dependencyTree res.1 = removeNode (Graph.ID n) (dependencyTree st) ∧
  Nodes (dependencyTree res.1) !! Graph.ID n = None ∧
  (backReferenced (dependencyTree st) →
     ∀ k m, Nodes (dependencyTree res.1) !! k = Some m → Graph.ID n ∉ childs m) ∧
  (foundDependency (Name (Graph.Dependency n)) filterDependencies = false ∨
   skipDependency (Name (Graph.Dependency n)) skipDependencies = true →
     res = (withTree (removeNode (Graph.ID n) (dependencyTree st)) st, None) ∧
     acted res.1 = acted st ∧ world res.1 = world st ∧
     executedDependencies res.1 = executedDependencies st).
Proof.
  intros res act. subst res act. unfold Orchestrator.runWork, bind, ret.
  destruct (performAction n st) as [sp r] eqn:E. simpl.
  assert (dependencyTree sp = dependencyTree st) as Ht
    by (eapply performed_tree, performAction_performed, E).
  rewrite Ht. split; [done |]. split; [done |]. split; [done |].
  split; [apply GraphFacts.removeNode_gone |].
  split; [intros Hb k m; by apply GraphFacts.removeNode_detached |].
  intros Hskip. revert E. unfold Orchestrator.performAction.
  destruct (bool_decide (Graph.ID n = _)); [by intros [= <- <-] |].
  destruct Hskip as [-> | Hs]; [by intros [= <- <-] |].
  destruct (foundDependency _ _); simpl; [| by intros [= <- <-]].
  rewrite Hs. by intros [= <- <-].
Qed.


End Claims.
End OrchestratorFacts.

(** ** One goroutine and two *)

Module RaceFacts.
Import Dep Orchestrator.

Section WithWorld.

Context {W : Type}.
Variable pluginHook : string → string → Dependency → state W (option error).
Variable logStream : Dependency → W → string.
Variable NumCPU : Z.
Variable fuel : nat.
Variables skipDependencies filterDependencies : list string.
Variables reverse verbose : bool.
Variable actionName : string.
Variable action : Dependency → state W (option error).
Variable concurrency : Z.
Variable s0 : hstate W.

Implicit Types q : Race.pool W.

Local Abbreviation work :=
  (Orchestrator.runWork pluginHook logStream skipDependencies filterDependencies
     reverse verbose actionName action).
Local Abbreviation sch := (@Orchestrator.scheduler W NumCPU fuel reverse concurrency).
Local Abbreviation step :=
  (Race.step pluginHook logStream fuel skipDependencies filterDependencies
     reverse verbose actionName action).
Local Abbreviation exec :=
  (Race.exec pluginHook logStream fuel skipDependencies filterDependencies
     reverse verbose actionName action).

(** A pool of one goroutine that a run without overlap reaches as well,
    once the call of the provider that has begun is taken as not begun;
    the store that is still to come is the one the whole call would make. *)
Record alone q : Prop := {
  al_serial : ∃ sched',
    Race.serial q = Scheduler.exec work sch sched' (Scheduler.start sch s0);
  al_one : length (Race.workers q) = 1%nat;
  al_mark : ∀ n, Race.workers q !! 0%nat = Some (Race.Marking n) →
    nextNode fuel reverse (dependencyTree (Race.shared q)) (visited (Race.shared q))
    = Some (<[Graph.ID n := Graph.ID n]> (visited (Race.shared q)), (Some n, None))
}.

Lemma alone_start :
  Z.to_nat (normalize NumCPU concurrency) = 1%nat →
  alone (Race.start NumCPU concurrency s0).
Proof.
  intros Hc. split.
  - exists []. unfold Race.serial, Race.start, Scheduler.start. simpl.
    by rewrite fmap_replicate.
  - simpl. by rewrite length_replicate.
  - intros n. simpl. rewrite Hc. done.
Qed.

Lemma alone_step i q : alone q → alone (step i q).
Proof.
  intros [[sched' Hs] Hone Hmark]. unfold Race.step.
  destruct q as [st ws ge rs]. simpl in *.
  destruct ws as [| w0 [| w1 ws]]; [done | | done]. clear Hone.
  destruct i as [| i]; [| by split; [exists sched' | |]].
  simpl in *. destruct w0 as [| n | n | e].
  - destruct (nextNode fuel reverse (dependencyTree st) (visited st))
      as [[v [[n|] [e|]]] |] eqn:Hn; [| | | | by split; [exists sched' | |]].
    all: pose proof (OrchestratorFacts.nextNode_selected fuel reverse _ _ _ _ Hn) as Hsel;
      simpl in Hsel; try done.
    + destruct Hsel as (_ & _ & _ & -> & _).
      split; simpl; [by exists sched' | done |].
      by intros m [= <-].
    + subst v. split; simpl; [| done | done].
      exists (sched' ++ [0%nat]). rewrite SchedulerFacts.exec_snoc, <- Hs.
      unfold Scheduler.step, Race.serial. simpl.
      unfold provide. rewrite Hn. by destruct st.
  - specialize (Hmark n eq_refl).
    split; simpl; [| done | done].
    exists (sched' ++ [0%nat]). rewrite SchedulerFacts.exec_snoc, <- Hs.
    unfold Scheduler.step, Race.serial. simpl.
    unfold provide. by rewrite Hmark.
  - destruct (work n st) as [s1 [e|]] eqn:Hw.
    all: split; simpl; [| done | done].
    all: exists (sched' ++ [0%nat]); rewrite SchedulerFacts.exec_snoc, <- Hs.
    all: unfold Scheduler.step, Race.serial; simpl; by rewrite Hw.
  - by split; [exists sched' | |].
Qed.

Lemma alone_exec sched q : alone q → alone (exec sched q).
Proof.
  unfold Race.exec. revert q.
  induction sched as [| i sched IH]; intros q Hq; [done |].
  simpl. by apply IH, alone_step.
Qed.

(** With one goroutine the two-step provider reaches no shared state that
    a run without overlap does not reach. *)
Lemma shared_alone sched :
  Z.to_nat (normalize NumCPU concurrency) = 1%nat →
  ∃ sched',
    Race.shared (exec sched (Race.start NumCPU concurrency s0))
    = Scheduler.shared (Scheduler.exec work sch sched' (Scheduler.start sch s0)).
Proof.
  intros Hc.
  destruct (alone_exec sched _ (alone_start Hc)) as [[sched' Hs] _ _].
  exists sched'. by rewrite <- Hs.
Qed.

End WithWorld.

Section Claims.

Context {W : Type}.
Variable pluginHook : string → string → Dependency → state W (option error).
Variable logStream : Dependency → W → string.
Variable NumCPU : Z.
Variable fuel : nat.
Variables skipDependencies filterDependencies : list string.
Variable verbose : bool.
Variable actionName : string.
Variable action : Dependency → state W (option error).

Local Abbreviation work :=
  (λ reverse, Orchestrator.runWork pluginHook logStream skipDependencies
                filterDependencies reverse verbose actionName action).
Local Abbreviation provide := (@Orchestrator.provide W fuel).
Local Abbreviation exec :=
  (λ reverse, Race.exec pluginHook logStream fuel skipDependencies
                filterDependencies reverse verbose actionName action).


End Claims.
End RaceFacts.

(** ** The entry points *)

Module ManagerFacts.
Import Dep Orchestrator Manager.

Section WithOutside.

Context {X : Type}.
Variable extern : Call → X → X * Reply.
Variable Resolve : bool → state (Env X) (graph Dependency + error).
Variable pluginHook : string → string → Dependency → state (Env X) (option error).
Variable logStream : Dependency → Env X → string.
Variable executeHooks :
  string → option (list Dependency) → option error → state (Env X) (option error).
Variable ansiColor : string → string → string.
Variable NumCPU : Z.
Variable fuel : nat.

Lemma noDependencies_absent m :
  config m = None ∨ config m = Some None ∨ config m = Some (Some []) →
  noDependencies m = true.
Proof. unfold noDependencies. by intros [-> | [-> | ->]]. Qed.

(** C8, as the code has it.  When the configuration is absent or declares
    no dependency, [handleDependencies] returns a nil list and no error
    and leaves the world as it was, whatever the resolver, the hooks and
    the action are: none of them is called, and no scheduler is run.  So do
    [UpdateAll], [ResolveAll], [BuildAll], [PurgeAll] and [RenderAll].
    [DeployAll] still runs its hooks before and after the batch and returns
    the error of a hook that fails, otherwise a nil list and no error.
    [Command] finds no dependency and returns the error
    "couldn't find dependency" with the name it was asked for. *)
Theorem absent_config (m : manager) (sched : list nat) (w : Env X) :
  config m = None ∨ config m = Some None ∨ config m = Some (Some []) →
  (∀ (W : Type) (resolve : bool → state W (graph Dependency + error))
     (hook : string → string → Dependency → state W (option error))
     (logs : Dependency → W → string) (action : Dependency → state W (option error))
     skip filter reverse verbose actionName update concurrency (w0 : W),
     handleDependencies resolve hook logs NumCPU fuel skip filter reverse verbose
       actionName action m update concurrency sched w0 = Some (w0, (None, None))) ∧
  UpdateAll Resolve ansiColor m w = (w, None) ∧
  (∀ options, ResolveAll Resolve pluginHook logStream NumCPU fuel m options sched w
              = Some (w, (None, None))) ∧
  (∀ options, BuildAll extern Resolve pluginHook logStream NumCPU fuel m options sched w
              = Some (w, (None, None))) ∧
  (∀ options, PurgeAll extern Resolve pluginHook logStream NumCPU fuel m options sched w
              = Some (w, (None, None))) ∧
  (∀ options, RenderAll extern Resolve pluginHook logStream NumCPU fuel m options sched w
              = Some (w, (None, None))) ∧
  (∀ options,
     DeployAll extern Resolve pluginHook logStream executeHooks NumCPU fuel m options
       sched w
     = match executeHooks "before:deployDependencies" None None w with
       | (w1, Some pluginErr) => Some (w1, (None, Some pluginErr))
       | (w1, None) =>
           match executeHooks "after:deployDependencies" None None w1 with
           | (w2, Some pluginErr) => Some (w2, (None, Some pluginErr))
           | (w2, None) => Some (w2, (None, None))
           end
       end) ∧
  (∀ options,
     Command extern Resolve pluginHook logStream NumCPU fuel m options sched w
     = Some (w, Some (Errorf ("couldn't find dependency " +:+ co_Dependency options)))).
Proof.
  intros Hm%noDependencies_absent.
  assert (∀ (W : Type) (resolve : bool → state W (graph Dependency + error))
            (hook : string → string → Dependency → state W (option error))
            (logs : Dependency → W → string)
            (action : Dependency → state W (option error))
            skip filter reverse verbose actionName update concurrency (w0 : W),
            handleDependencies resolve hook logs NumCPU fuel skip filter reverse verbose
              actionName action m update concurrency sched w0
            = Some (w0, (None, None))) as Hh.
  { intros. unfold handleDependencies. by rewrite Hm. }
  split; [exact Hh |]. split; [unfold UpdateAll; by rewrite Hm |].
  split; [intros; unfold ResolveAll, handle; by rewrite Hh |].
  split; [intros; unfold BuildAll, handle; by rewrite Hh |].
  split; [intros; unfold PurgeAll, handle; by rewrite Hh |].
  split; [intros; unfold RenderAll, handle; by rewrite Hh |].
  split.
  - intros options. unfold DeployAll, handle.
    destruct (executeHooks "before:deployDependencies" None None w) as [w1 [e|]];
      [done |].
    by rewrite Hh.
  - intros options. unfold Command. by rewrite Hh.
Qed.

End WithOutside.
End ManagerFacts.

(** ** More about the orchestrator *)

Module OrchestratorMore.
Import Dep Orchestrator.

(** The filter list accepts a name when it is empty or lists the name. *)
Theorem foundDependency_spec (name : string) (dependencies : list string) :
  foundDependency name dependencies = true ↔ dependencies = [] ∨ name ∈ dependencies.
Proof.
  unfold foundDependency. destruct dependencies as [| d ds].
  - split; [by left | done].
  - rewrite bool_decide_false by done.
    assert (∀ l, nameAmong name l = true ↔ name ∈ l) as Hl.
    { induction l as [| x l IH]; simpl.
      - split; [done | by intros ?%elem_of_nil].
      - case_bool_decide as Hx.
        + split; [intros _; subst; apply list_elem_of_here | done].
        + rewrite IH. split; [by apply list_elem_of_further |].
          intros [? | ?]%elem_of_cons; [congruence | done]. }
    rewrite Hl. split; [by right | by intros [? | ?]].
Qed.

(** The skip list skips exactly the names it lists: an empty list skips
    nothing. *)
Theorem skipDependency_spec (name : string) (skipDependencies : list string) :
  skipDependency name skipDependencies = true ↔ name ∈ skipDependencies.
Proof.
  induction skipDependencies as [| x l IH]; simpl.
  - split; [done | by intros ?%elem_of_nil].
  - case_bool_decide as Hx.
    + split; [intros _; subst; apply list_elem_of_here | done].
    + rewrite IH. split; [by apply list_elem_of_further |].
      intros [? | ?]%elem_of_cons; [congruence | done].
Qed.

Section WithWorld.

Context {W : Type}.
Variable Resolve : bool → state W (graph Dependency + error).
Variable pluginHook : string → string → Dependency → state W (option error).
Variable logStream : Dependency → W → string.
Variable NumCPU : Z.
Variable fuel : nat.
Variables skipDependencies filterDependencies : list string.
Variable verbose : bool.
Variable actionName : string.
Variable action : Dependency → state W (option error).

Implicit Types st : hstate W.
Implicit Types n : node Dependency.
Implicit Types g : graph Dependency.

Local Abbreviation performAction :=
  (Orchestrator.performAction pluginHook logStream skipDependencies
     filterDependencies verbose actionName action).
Local Abbreviation work :=
  (λ reverse, Orchestrator.runWork pluginHook logStream skipDependencies
                filterDependencies reverse verbose actionName action).
Local Abbreviation scheduler := (@Orchestrator.scheduler W NumCPU fuel).
Local Abbreviation handle :=
  (λ reverse, handleDependencies Resolve pluginHook logStream NumCPU fuel
                skipDependencies filterDependencies reverse verbose actionName action).

(** [performAction] touches neither the graph nor the visited map.  It
    adds the dependency to the executed list only when it returns nil, and
    then only after the action callback was called on it; when it returns
    an error the executed list is as before. *)
Theorem performAction_executed n st :
  let st1 := (performAction n st).1 in
  let r := (performAction n st).2 in
  dependencyTree st1 = dependencyTree st ∧
  visited st1 = visited st ∧
  handed st1 = handed st ∧
  (executedDependencies st1 = executedDependencies st ∨
   r = None ∧
   executedDependencies st1 = executedDependencies st ++ [Graph.Dependency n] ∧
   acted st1 = acted st ++ [Graph.ID n]) ∧
  (r ≠ None → executedDependencies st1 = executedDependencies st).
Proof.
  intros st1 r. subst st1 r.
  destruct (performAction n st) as [st1 r] eqn:E. simpl.
  apply OrchestratorFacts.performAction_performed in E.
  destruct E as [st1 r Hw | st1 r _ _ _ Hw | st1 _ _ _ Hw]; rewrite Hw; simpl.
  - split; [done |]. split; [done |]. split; [done |]. split; [by left | done].
  - split; [done |]. split; [done |]. split; [done |]. split; [by left | done].
  - split; [done |]. split; [done |]. split; [done |]. split; [by right | done].
Qed.

(** In a reverse call the graph is never changed: after any steps of the
    goroutines it is the graph the resolver returned. *)
Theorem reverse_keeps_graph (concurrency : Z) (g0 : graph Dependency) (w : W)
    (sched : list nat) :
  dependencyTree
    (Scheduler.shared
       (Scheduler.exec (work true) (scheduler true concurrency) sched
          (Scheduler.start (scheduler true concurrency) (initial g0 w))))
  = g0.
Proof.
  set (sch := scheduler true concurrency).
  assert (∀ p, dependencyTree (Scheduler.shared p) = g0 →
               dependencyTree (Scheduler.shared (Scheduler.exec (work true) sch sched p))
               = g0) as Hinv; [| by apply Hinv].
  unfold Scheduler.exec. induction sched as [| i sched IH]; intros p Hp; [done |].
  simpl. apply IH. unfold Scheduler.step.
  destruct (Scheduler.workers p !! i) as [[| n | e] |]; [| | done | done].
  - cbn [Scheduler.next sch Orchestrator.scheduler Scheduler.NewScheduler].
    unfold provide.
    by destruct (nextNode fuel true _ _) as [[v [[m|] [e|]]] |].
  - destruct (work true n (Scheduler.shared p)) as [st1 r] eqn:E.
    assert (dependencyTree st1 = g0) as Ht.
    { rewrite <- Hp. unfold Orchestrator.runWork in E.
      eapply OrchestratorFacts.performed_tree,
        OrchestratorFacts.performAction_performed, E. }
    by destruct r.
Qed.

(** What [handleDependencies] returns: an error always comes with a nil
    list; a list comes without an error, only when dependencies are
    declared and the resolver returned a graph, and it holds only
    dependencies marked as root that are payloads of nodes of that graph
    other than its root. *)
Theorem handleDependencies_result (reverse : bool) (m : manager) (update : bool)
    (concurrency : Z) (sched : list nat) (w w1 : W)
    (l : option (list Dependency)) (e : option error) :
  handle reverse m update concurrency sched w = Some (w1, (l, e)) →
  (e ≠ None → l = None) ∧
  (∀ deps, l = Some deps →
     e = None ∧ noDependencies m = false ∧
     Forall (λ d, Root d = true) deps ∧
     ∃ g0, (Resolve update w).2 = inl g0 ∧
           Forall (λ d, ∃ k0 n0, Nodes g0 !! k0 = Some n0 ∧
                                 Graph.ID n0 ≠ Graph.Root g0 ∧
                                 Graph.Dependency n0 = d) deps).
Proof.
  unfold handleDependencies. destruct (noDependencies m) eqn:Hm.
  { intros [= <- <- <-]. split; [done | by intros deps [=]]. }
  destruct (Resolve update w) as [w0 [g0 | err]] eqn:Hr; simpl;
    [| intros [= <- <- <-]; split; [done | by intros deps [=]]].
  destruct (Scheduler.Run _ _ _ _) as [[st [err|]] |] eqn:Hrun; [| | done].
  { intros [= <- <- <-]. split; [done | by intros deps [=]]. }
  intros [= <- <- <-]. split; [done |]. intros deps [= <-].
  split; [done |]. split; [done |].
  assert (Forall (λ d, ∃ k0 n0, Nodes g0 !! k0 = Some n0 ∧
                               Graph.ID n0 ≠ Graph.Root g0 ∧ Graph.Dependency n0 = d)
            (executedDependencies st)) as Hex.
  { unfold Scheduler.Run in Hrun.
    destruct (Scheduler.drained _); [| done]. injection Hrun as <- _.
    eapply OrchestratorFacts.ok_executed.
    eapply (OrchestratorFacts.coherent_exec pluginHook logStream fuel skipDependencies
              filterDependencies reverse verbose actionName action
              (scheduler reverse concurrency) eq_refl g0 sched).
    apply OrchestratorFacts.coherent_start. }
  split.
  - apply Forall_forall. by intros d [? _]%list_elem_of_filter.
  - exists g0. split; [done |]. rewrite Forall_forall in Hex |- *.
    intros d [_ Hd]%list_elem_of_filter. by apply Hex.
Qed.

(** A negative concurrency is not replaced: no goroutine is started, so
    once the graph is resolved the call acts on no dependency and returns
    an empty list, not nil, and no error, leaving the world as the resolver
    left it. *)
Theorem negative_concurrency (reverse : bool) (m : manager) (update : bool)
    (concurrency : Z) (sched : list nat) (w : W) (g0 : graph Dependency) :
  (concurrency < 0)%Z →
  noDependencies m = false →
  (Resolve update w).2 = inl g0 →
  handle reverse m update concurrency sched w = Some ((Resolve update w).1, (Some [], None)).
Proof.
  intros Hneg Hm Hr. unfold handleDependencies. rewrite Hm.
  destruct (Resolve update w) as [w0 [g1 | err]]; simpl in Hr; [| done].
  injection Hr as ->. simpl.
  assert (Z.to_nat (normalize NumCPU concurrency) = 0%nat) as Hc.
  { unfold normalize. rewrite bool_decide_false by lia. lia. }
  unfold Scheduler.Run.
  assert (∀ p : Scheduler.pool (hstate W) (node Dependency),
            Scheduler.workers p = [] →
            Scheduler.exec (work reverse) (scheduler reverse concurrency) sched p = p)
    as Hidle.
  { unfold Scheduler.exec.
    induction sched as [| i sched IH]; intros p Hp; [done |].
    simpl. replace (Scheduler.step _ _ i p) with p; [by apply IH |].
    unfold Scheduler.step. by rewrite Hp. }
  assert (Scheduler.workers
            (Scheduler.start (scheduler reverse concurrency) (initial g0 w0)) = [])
    as Hw.
  { simpl. cbn [Scheduler.concurrency Orchestrator.scheduler Scheduler.NewScheduler].
    by rewrite Hc. }
  rewrite Hidle by exact Hw. unfold Scheduler.drained. rewrite Hw. reflexivity.
Qed.

Lemma handleDependencies_error_nil (reverse : bool) (m : manager) (update : bool)
    (concurrency : Z) (sched : list nat) (w w1 : W)
    (l : option (list Dependency)) (x : error) :
  handle reverse m update concurrency sched w = Some (w1, (l, Some x)) → l = None.
Proof.
  unfold handleDependencies. destruct (noDependencies m); [by intros [=] |].
  destruct (Resolve update w) as [w0 [g0 | err]]; [| by intros [= _ <- _]].
  destruct (Scheduler.Run _ _ _ _) as [[st [err|]] |]; [| | done].
  - by intros [= _ <- _].
  - by intros [=].
Qed.

(** What the hooks keep of the world, [performAction] keeps too, unless it
    gets as far as the hooks and the action of a dependency that passes
    the filter and is not skipped. *)
Lemma performAction_world {B : Type} (f : W → B) n st :
  Graph.ID n = Graph.Root (dependencyTree st) ∨
  foundDependency (Name (Graph.Dependency n)) filterDependencies = false ∨
  skipDependency (Name (Graph.Dependency n)) skipDependencies = true →
  f (world (performAction n st).1) = f (world st).
Proof.
  intros H. unfold Orchestrator.performAction.
  destruct (bool_decide (Graph.ID n = _)) eqn:Hroot; [done |].
  apply bool_decide_eq_false in Hroot.
  destruct H as [? | [-> | Hs]]; [done | done |].
  destruct (foundDependency _ _); simpl; [| done]. by rewrite Hs.
Qed.

Lemma step_world {B : Type} (f : W → B) (reverse : bool) (concurrency : Z) i
    (p : Scheduler.pool (hstate W) (node Dependency)) :
  (∀ n, Scheduler.workers p !! i = Some (Scheduler.Executing n) →
        f (world (performAction n (Scheduler.shared p)).1)
        = f (world (Scheduler.shared p))) →
  f (world (Scheduler.shared (Scheduler.step (work reverse) (scheduler reverse concurrency) i p)))
  = f (world (Scheduler.shared p)).
Proof.
  intros H. unfold Scheduler.step.
  destruct (Scheduler.workers p !! i) as [[| n | e] |]; [| | done | done].
  - cbn [Scheduler.next Orchestrator.scheduler Scheduler.NewScheduler].
    unfold provide.
    by destruct (nextNode fuel reverse _ _) as [[v [[m|] [e|]]] |].
  - specialize (H n eq_refl). unfold Orchestrator.runWork, bind, ret.
    destruct reverse.
    + destruct (performAction n (Scheduler.shared p)) as [st1 [e|]]; exact H.
    + destruct (performAction n (Scheduler.shared p)) as [st1 [e|]]; exact H.
Qed.

End WithWorld.
End OrchestratorMore.

(** ** The order of a forward call *)

Module ForwardOrder.
Import Dep Orchestrator.

Lemma dropped_is_Some {D : Type} (id : string) (ps : list string)
    (M : gmap string (node D)) k :
  is_Some (M !! k) → is_Some (foldr (λ p m, alter (dropChild id) p m) M ps !! k).
Proof.
  intros H. induction ps as [| p ps IH]; [done |].
  simpl. by apply lookup_alter_is_Some.
Qed.

(** [removeNode] keeps every other node registered. *)
Lemma removeNode_other {D : Type} (id k : string) (g : graph D) :
  k ≠ id → is_Some (Nodes g !! k) → is_Some (Nodes (removeNode id g) !! k).
Proof.
  intros Hne H. unfold removeNode. destruct (Nodes g !! id) as [n|]; [| done].
  simpl. rewrite lookup_delete_ne by done. by apply dropped_is_Some.
Qed.

Section WithWorld.

Context {W : Type}.
Variable pluginHook : string → string → Dependency → state W (option error).
Variable logStream : Dependency → W → string.
Variable NumCPU : Z.
Variable fuel : nat.
Variables skipDependencies filterDependencies : list string.
Variable verbose : bool.
Variable actionName : string.
Variable action : Dependency → state W (option error).
Variable concurrency : Z.
Variable g0 : graph Dependency.

Implicit Types st : hstate W.
Implicit Types n : node Dependency.
Implicit Types p : Scheduler.pool (hstate W) (node Dependency).

Local Abbreviation work :=
  (Orchestrator.runWork pluginHook logStream skipDependencies filterDependencies
     false verbose actionName action).
Local Abbreviation sch := (@Orchestrator.scheduler W NumCPU fuel false concurrency).

(** What a forward call keeps, [g0] being the resolved graph: the current
    graph files its nodes under their IDs; a node has lost only children
    that are no longer registered; the children of a node that was handed
    out are no longer registered; the action was never called on a child
    after its parent; and the node of a unit of work a goroutine holds is
    still registered. *)
Record ordered p : Prop := {
  fo_keyed : keyed (dependencyTree (Scheduler.shared p));
  fo_sub : ∀ k m, Nodes (dependencyTree (Scheduler.shared p)) !! k = Some m →
           ∃ m0, Nodes g0 !! k = Some m0 ∧
                 ∀ c, c ∈ childs m0 →
                      is_Some (Nodes (dependencyTree (Scheduler.shared p)) !! c) →
                      c ∈ childs m;
  fo_done : ∀ a m0 b, a ∈ handed (Scheduler.shared p) → Nodes g0 !! a = Some m0 →
            b ∈ childs m0 →
            Nodes (dependencyTree (Scheduler.shared p)) !! b = None;
  fo_order : ∀ l1 a l2 m0 b, acted (Scheduler.shared p) = l1 ++ a :: l2 →
             Nodes g0 !! a = Some m0 → b ∈ childs m0 → b ∉ l2;
  fo_pending : ∀ i n, Scheduler.workers p !! i = Some (Scheduler.Executing n) →
               is_Some (Nodes (dependencyTree (Scheduler.shared p)) !! Graph.ID n)
}.

Lemma ordered_start w : keyed g0 → ordered (Scheduler.start sch (initial g0 w)).
Proof.
  intros Hk. split; simpl.
  - exact Hk.
  - intros k m Hm. exists m. by split.
  - by intros a m0 b ?%elem_of_nil.
  - intros l1 a l2 m0 b H. by destruct l1.
  - intros i n H. by apply lookup_replicate in H as [? _].
Qed.

(** The goroutine [i] has run the closure for [n]: the node is removed and
    the goroutine holds nothing. *)
Lemma ordered_settle i p n sp r w1 q :
  OrchestratorFacts.coherent g0 p → ordered p →
  Scheduler.workers p !! i = Some (Scheduler.Executing n) →
  OrchestratorFacts.performed skipDependencies filterDependencies n
    (Scheduler.shared p) sp r →
  (∀ m, w1 ≠ Scheduler.Executing m) →
  Scheduler.shared q = withTree (removeNode (Graph.ID n) (dependencyTree sp)) sp →
  Scheduler.workers q = <[i := w1]> (Scheduler.workers p) →
  ordered q.
Proof.
  intros [Hs Hp] [Hk Hsub Hdone Hord Hpend] Hw Hpa Hw1 Hq Hws.
  destruct (OrchestratorFacts.pe_held _ _ _ Hp i n Hw) as (Hh & Ha & _).
  set (T := dependencyTree (Scheduler.shared p)) in *.
  assert (dependencyTree sp = T ∧ handed sp = handed (Scheduler.shared p) ∧
          (acted sp = acted (Scheduler.shared p) ∨
           acted sp = acted (Scheduler.shared p) ++ [Graph.ID n])) as (Ht & Hhd & Hac).
  { destruct Hpa as [? ? -> | ? ? _ _ _ -> | ? _ _ _ ->]; simpl; auto. }
  split; rewrite ?Hq, ?Hws; simpl; rewrite ?Ht, ?Hhd.
  - intros k m1 Hm1.
    apply GraphFacts.removeNode_lookup in Hm1 as (m & Hm & Hi & _).
    simpl. rewrite Hi. exact (Hk k m Hm).
  - intros k m1 Hm1.
    apply GraphFacts.removeNode_lookup in Hm1 as (m & Hm & _ & _ & _ & Hc).
    destruct (Hsub k m Hm) as (m0 & Hm0 & Hch). exists m0. split; [done |].
    intros c Hc0 [mc Hmc].
    assert (c ≠ Graph.ID n) as Hne.
    { intros ->. by rewrite GraphFacts.removeNode_gone in Hmc. }
    apply GraphFacts.removeNode_lookup in Hmc as (mc0 & Hmc0 & _).
    specialize (Hch c Hc0 ltac:(by eexists)).
    destruct Hc as [-> | ->]; [done |]. by apply list_elem_of_filter.
  - intros a m0 b Hin Hm0 Hb. specialize (Hdone a m0 b Hin Hm0 Hb).
    destruct (Nodes (removeNode (Graph.ID n) T) !! b) as [m1|] eqn:E; [| done].
    apply GraphFacts.removeNode_lookup in E as (m & Hm & _). congruence.
  - intros l1 a l2 m0 b Hsplit Hm0 Hb.
    destruct Hac as [Hac | Hac]; rewrite Hac in Hsplit; [by eapply Hord |].
    destruct l2 as [| z l2 _] using rev_ind; [by intros ?%elem_of_nil |].
    rewrite app_comm_cons, app_assoc in Hsplit.
    apply app_inj_tail in Hsplit as [Hsplit <-].
    intros [Hin | ->%list_elem_of_singleton]%elem_of_app.
    + by apply (Hord l1 a l2 m0 b Hsplit Hm0 Hb).
    + assert (a ∈ handed (Scheduler.shared p)) as Hah.
      { apply (OrchestratorFacts.ok_acted_handed _ _ Hs). rewrite Hsplit.
        apply elem_of_app. right. apply list_elem_of_here. }
      pose proof (Hdone a m0 _ Hah Hm0 Hb) as Hnone.
      destruct (Hpend i n Hw) as [? Hsome]. congruence.
  - intros j m Hj. destruct (decide (i = j)) as [-> | Hne].
    + apply list_lookup_insert_Some in Hj as [(_ & -> & _) | (? & _)]; [| done].
      by specialize (Hw1 m).
    + rewrite list_lookup_insert_ne in Hj by done.
      apply removeNode_other; [| by eapply Hpend].
      intros Heq. by apply (OrchestratorFacts.pe_distinct _ _ _ Hp i j n m Hne Hw Hj).
Qed.

Lemma ordered_step i p :
  OrchestratorFacts.coherent g0 p → ordered p →
  ordered (Scheduler.step work sch i p).
Proof.
  intros Hc Ho. pose proof Ho as [Hk Hsub Hdone Hord Hpend]. unfold Scheduler.step.
  destruct (Scheduler.workers p !! i) as [[| n | e] |] eqn:Hw; [| | done | done].
  - cbn [Scheduler.next Orchestrator.scheduler Scheduler.NewScheduler].
    unfold provide.
    destruct (nextNode fuel false _ _) as [[v [[n|] [e|]]] |] eqn:Hn;
      [apply OrchestratorFacts.nextNode_selected in Hn; simpl in Hn .. | done].
    1, 3: done.
    + destruct Hn as ((k & Hkn) & Hroot & Hv & -> & Hleaf).
      specialize (Hleaf eq_refl).
      pose proof (Hk k n Hkn) as Hid. simpl in Hid.
      split; simpl; try done.
      * intros a m0 b [Ha | ->%list_elem_of_singleton]%elem_of_app Hm0 Hb;
          [by eapply Hdone |].
        destruct (Hsub k n Hkn) as (m1 & Hm1 & Hc1).
        rewrite Hid in Hm0. assert (m1 = m0) as -> by congruence.
        destruct (Nodes (dependencyTree (Scheduler.shared p)) !! b) eqn:Eb; [| done].
        specialize (Hc1 b Hb ltac:(by eexists)). rewrite Hleaf in Hc1.
        by apply elem_of_nil in Hc1.
      * intros j m Hj. destruct (decide (i = j)) as [-> | Hne].
        -- apply list_lookup_insert_Some in Hj as [(_ & [= <-] & _) | (? & _)]; [| done].
           rewrite Hid. by eexists.
        -- rewrite list_lookup_insert_ne in Hj by done. by eapply Hpend.
    + subst v. split; simpl; try done.
      intros j m Hj. destruct (decide (i = j)) as [-> | Hne].
      * by apply list_lookup_insert_Some in Hj as [(_ & [=] & _) | (? & _)].
      * rewrite list_lookup_insert_ne in Hj by done. by eapply Hpend.
  - destruct (work n (Scheduler.shared p)) as [st1 r] eqn:Hr.
    apply OrchestratorFacts.runWork_performAction in Hr as (sp & Hpa & ->).
    apply OrchestratorFacts.performAction_performed in Hpa.
    destruct r as [e|];
      (eapply (ordered_settle i p n sp); [done | done | done | exact Hpa | | done | done]);
      done.
Qed.

(** In the runs of a forward call in which no call of the provider and no
    unit of work overlaps another, children are acted on before their
    parents, and the children of a node that is handed out are no longer
    registered. *)
Lemma ordered_exec (w : W) (sched : list nat) :
  keyed g0 →
  let st := Scheduler.shared (Scheduler.exec work sch sched
                                (Scheduler.start sch (initial g0 w))) in
  (∀ l1 a l2 m0 b, acted st = l1 ++ a :: l2 →
                   Nodes g0 !! a = Some m0 → b ∈ childs m0 → b ∉ l2) ∧
  (∀ a m0 b, a ∈ handed st → Nodes g0 !! a = Some m0 → b ∈ childs m0 →
             Nodes (dependencyTree st) !! b = None).
Proof.
  intros Hk.
  assert (∀ p, OrchestratorFacts.coherent g0 p → ordered p →
               ordered (Scheduler.exec work sch sched p)) as Hinv.
  { unfold Scheduler.exec. induction sched as [| i sched IH]; intros p Hc Ho; [done |].
    simpl. apply IH; [| by apply ordered_step].
    eapply OrchestratorFacts.coherent_step; first [exact Hc | reflexivity]. }
  destruct (Hinv _ (OrchestratorFacts.coherent_start _ g0 w) (ordered_start w Hk))
    as [_ _ Hdone Hord _].
  split; [exact Hord | exact Hdone].
Qed.

(** In a forward call run by one goroutine (the test and the store of
    [visited] taken as separate steps), the action is never called on a
    child of a node after it was called on that node: among the nodes
    acted on, children come before their parents.  When a node is handed
    out, its children in the resolved graph are no longer registered:
    their work closures have run. *)
Theorem forward_children_first (w : W) (sched : list nat) :
  Z.to_nat (normalize NumCPU concurrency) = 1%nat →
  keyed g0 →
  let st := Race.shared
              (Race.exec pluginHook logStream fuel skipDependencies
                 filterDependencies false verbose actionName action sched
                 (Race.start NumCPU concurrency (initial g0 w))) in
  (∀ l1 a l2 m0 b, acted st = l1 ++ a :: l2 →
                   Nodes g0 !! a = Some m0 → b ∈ childs m0 → b ∉ l2) ∧
  (∀ a m0 b, a ∈ handed st → Nodes g0 !! a = Some m0 → b ∈ childs m0 →
             Nodes (dependencyTree st) !! b = None).
Proof.
  intros Hc Hk st.
  destruct (RaceFacts.shared_alone pluginHook logStream NumCPU fuel skipDependencies
              filterDependencies false verbose actionName action concurrency
              (initial g0 w) sched Hc) as [sched' Hs].
  subst st. rewrite Hs. by apply ordered_exec.
Qed.

End WithWorld.
End ForwardOrder.

(** ** The order of a reverse call *)

Module ReverseOrder.
Import Dep Orchestrator.

Section Walks.

Context {D : Type}.
Variable g : graph D.
Variable P : string → bool.

Lemma ends_head fuel id :
  map endOf (walksFrom fuel g id) = [] ∨
  ∃ rest, map endOf (walksFrom fuel g id) = id :: rest.
Proof.
  destruct fuel as [| fuel]; [by left |]. simpl.
  destruct (Nodes g !! id); [| by left]. right. by eexists.
Qed.

(** The first node with [P] that a pre-order traversal meets below a node
    without [P] is the child of a node without [P]. *)
Lemma first_has_parent fuel id x :
  P id = false →
  find P (map endOf (walksFrom fuel g id)) = Some x →
  ∃ a n, Nodes g !! a = Some n ∧ x ∈ childs n ∧ P a = false.
Proof.
  revert id. induction fuel as [| fuel IH]; intros id Hid; [done |].
  destruct (Nodes g !! id) as [n0|] eqn:Hn0; [| simpl; by rewrite Hn0].
  rewrite (GraphFacts.ends_walksFrom_succ _ _ _ _ Hn0). simpl. rewrite Hid.
  rewrite <- GraphFacts.flat_map_ends.
  assert (∀ cs, (∀ c, c ∈ cs → c ∈ childs n0) →
                find P (flat_map (λ c, map endOf (walksFrom fuel g c)) cs) = Some x →
                ∃ a n, Nodes g !! a = Some n ∧ x ∈ childs n ∧ P a = false) as Hcs;
    [| by apply Hcs].
  induction cs as [| c cs IHcs]; intros Hsub; [done |].
  simpl. rewrite GraphFacts.find_app_first.
  destruct (find P (map endOf (walksFrom fuel g c))) as [y|] eqn:Hf.
  - intros [= ->]. destruct (P c) eqn:Hc; [| by apply (IH c)].
    destruct (ends_head fuel c) as [He | [rest He]]; rewrite He in Hf; [done |].
    simpl in Hf. rewrite Hc in Hf. injection Hf as <-.
    exists id, n0. split; [done |]. split; [| done]. apply Hsub, list_elem_of_here.
  - apply IHcs. intros c' Hc'. by apply Hsub, list_elem_of_further.
Qed.

End Walks.

Section WithWorld.

Context {W : Type}.
Variable pluginHook : string → string → Dependency → state W (option error).
Variable logStream : Dependency → W → string.
Variable NumCPU : Z.
Variable fuel : nat.
Variables skipDependencies filterDependencies : list string.
Variable verbose : bool.
Variable actionName : string.
Variable action : Dependency → state W (option error).
Variable concurrency : Z.
Variable g0 : graph Dependency.
Hypothesis g0_keyed : keyed g0.

Implicit Types p : Scheduler.pool (hstate W) (node Dependency).

Local Abbreviation work :=
  (Orchestrator.runWork pluginHook logStream skipDependencies filterDependencies
     true verbose actionName action).
Local Abbreviation sch := (@Orchestrator.scheduler W NumCPU fuel true concurrency).

(** What a reverse call keeps: the graph, that only handed out nodes are
    in [visited], and that every node handed out is a child of the root or
    of a node handed out before it. *)
Record descending p : Prop := {
  de_tree : dependencyTree (Scheduler.shared p) = g0;
  de_visited : ∀ x, is_Some (visited (Scheduler.shared p) !! x) →
               x ∈ handed (Scheduler.shared p);
  de_parent : ∀ l1 x l2, handed (Scheduler.shared p) = l1 ++ x :: l2 →
              ∃ a n, Nodes g0 !! a = Some n ∧ x ∈ childs n ∧
                     (a = Graph.Root g0 ∨ a ∈ l1)
}.

Lemma descending_step i p : descending p → descending (Scheduler.step work sch i p).
Proof.
  intros [Ht Hv Hpar]. unfold Scheduler.step.
  destruct (Scheduler.workers p !! i) as [[| n | e] |] eqn:Hw; [| | done | done].
  - cbn [Scheduler.next Orchestrator.scheduler Scheduler.NewScheduler].
    unfold provide, nextNode. rewrite Ht.
    destruct (preOrderSearch fuel g0 (Graph.Root g0) (visitReverse (Graph.Root g0))
                (visited (Scheduler.shared p))) as [res|] eqn:Hs; [| done].
    pose proof (GraphFacts.preOrderSearch_first g0 (visitReverse (Graph.Root g0))
                  (OrchestratorFacts.eligible g0 (visited (Scheduler.shared p)))
                  (λ n, <[Graph.ID n := Graph.ID n]> (visited (Scheduler.shared p)))
                  (visited (Scheduler.shared p))) as Hfirst.
    specialize (Hfirst ltac:(intros n; unfold visitReverse, OrchestratorFacts.eligible;
                             repeat case_bool_decide; simpl; done)
                  fuel (Graph.Root g0) res g0_keyed Hs).
    unfold GraphFacts.firstOf in Hfirst.
    destruct (find _ _) as [x|] eqn:Hfind.
    + destruct Hfirst as (n & Hn & ->).
      pose proof (g0_keyed x n Hn) as Hid. simpl in Hid.
      split; simpl; [done | |].
      * intros y Hy. apply elem_of_app. rewrite Hid in *.
        destruct (decide (x = y)) as [-> | Hne];
          [right; apply list_elem_of_here | left].
        rewrite lookup_insert_ne in Hy by done. by apply Hv.
      * intros l1 y l2 Hsplit.
        destruct l2 as [| z l2 _] using rev_ind.
        -- apply app_inj_tail in Hsplit as [<- <-].
           destruct (first_has_parent g0 (OrchestratorFacts.eligible g0 (visited (Scheduler.shared p)))
                       fuel (Graph.Root g0) x) as (a & m & Hm & Hx & Ha);
             [| exact Hfind |].
           { unfold OrchestratorFacts.eligible. by rewrite bool_decide_false by auto. }
           exists a, m. split; [done |]. rewrite Hid. split; [done |].
           unfold OrchestratorFacts.eligible in Ha.
           apply andb_false_iff in Ha as [Ha | Ha].
           ++ left. apply bool_decide_eq_false in Ha.
              destruct (decide (a = Graph.Root g0)); [done | by destruct Ha].
           ++ right. apply bool_decide_eq_false in Ha. apply Hv.
              by destruct (visited (Scheduler.shared p) !! a); [eexists |].
        -- rewrite app_comm_cons, app_assoc in Hsplit.
           apply app_inj_tail in Hsplit as [Hsplit _]. by apply (Hpar l1 y l2).
    + subst res. by split.
  - destruct (work n (Scheduler.shared p)) as [st1 r] eqn:Hr.
    unfold Orchestrator.runWork in Hr.
    apply OrchestratorFacts.performAction_performed in Hr.
    assert (dependencyTree st1 = dependencyTree (Scheduler.shared p) ∧
            visited st1 = visited (Scheduler.shared p) ∧
            handed st1 = handed (Scheduler.shared p)) as (E1 & E2 & E3).
    { destruct Hr as [? ? -> | ? ? _ _ _ -> | ? _ _ _ ->]; done. }
    destruct r as [e|]; split; simpl; rewrite ?E1, ?E2, ?E3; done.
Qed.

(** In a reverse call, however the goroutines interleave, every node that
    is handed out is a child of the root or of a node that was handed out
    before it: no node is purged before one of its parents was taken. *)
Theorem reverse_parents_first (w : W) (sched : list nat) :
  let st := Scheduler.shared (Scheduler.exec work sch sched
                                (Scheduler.start sch (initial g0 w))) in
  ∀ l1 x l2, handed st = l1 ++ x :: l2 →
    ∃ a n, Nodes g0 !! a = Some n ∧ x ∈ childs n ∧ (a = Graph.Root g0 ∨ a ∈ l1).
Proof.
  assert (∀ p, descending p → descending (Scheduler.exec work sch sched p)) as Hinv.
  { unfold Scheduler.exec. induction sched as [| i sched IH]; intros p Hp; [done |].
    simpl. by apply IH, descending_step. }
  apply Hinv. split; simpl; [done | | ].
  - intros x [y Hy]. by rewrite lookup_empty in Hy.
  - intros l1 x l2 H. by destruct l1.
Qed.

End WithWorld.
End ReverseOrder.

(** ** More about the scheduler *)

Module SchedulerMore.
Import Scheduler.

Section Pool.

Context {St Work : Type}.
Variable runWork : Work → St → St * option error.
Variable sch : scheduler St Work.

Implicit Types p : pool St Work.

Lemma step_drained i p : drained p = true → step runWork sch i p = p.
Proof.
  intros Hd. unfold step.
  destruct (workers p !! i) as [w|] eqn:Hw; [| done].
  destruct (proj1 (SchedulerFacts.drained_spec p) Hd i w Hw) as [e ->]. done.
Qed.

Lemma exec_drained sched p : drained p = true → exec runWork sch sched p = p.
Proof.
  unfold exec. induction sched as [| i sched IH]; intros Hd; [done |].
  simpl. rewrite step_drained by done. by apply IH.
Qed.

(** Once every goroutine has returned nothing moves any more: whatever
    steps the interleaving goes on with, [Run] returns the same state and
    the same error. *)
Theorem Run_final (sched more : list nat) (s : St) (r : St * option error) :
  Run runWork sch sched s = Some r →
  Run runWork sch (sched ++ more) s = Some r.
Proof.
  unfold Run. destruct (drained (exec runWork sch sched (start sch s))) eqn:Hd; [| done].
  intros [= <-]. unfold exec in *. rewrite foldl_app.
  fold (exec runWork sch sched (start sch s)) in *.
  fold (exec runWork sch more (exec runWork sch sched (start sch s))).
  rewrite exec_drained by done. by rewrite Hd.
Qed.

End Pool.

End SchedulerMore.

(** ** More about the actions of a dependency *)

Module DepMore.
Import Dep.

Section WithOutside.

Context {X : Type}.
Variable extern : Call → X → X * Reply.

Local Abbreviation hashed := (DepFacts.hashed extern).
Local Abbreviation hashOf := (DepFacts.hashOf extern).

(** Code that leaves the dependency cache as it is. *)
Definition keepsCache {A : Type} (m : state (Env X) A) : Prop :=
  ∀ e, cache (m e).1 = cache e.

Lemma keepsCache_ret {A} (a : A) : keepsCache (ret a).
Proof. by intros e. Qed.

Lemma keepsCache_bind {A B} (m : state (Env X) A) (k : A → state (Env X) B) :
  keepsCache m → (∀ a, keepsCache (k a)) → keepsCache (bind m k).
Proof.
  intros Hm Hk e. unfold bind. specialize (Hm e).
  destruct (m e) as [e1 a]. simpl in Hm. by rewrite Hk.
Qed.

Lemma keepsCache_call c : keepsCache (call extern c).
Proof. intros e. apply DepFacts.cache_call. Qed.

Lemma keepsCache_setBuiltImages i m : keepsCache (@setBuiltImages X i m).
Proof. by intros e. Qed.

Lemma keepsCache_if {A} (b : bool) (m1 m2 : state (Env X) A) :
  keepsCache m1 → keepsCache m2 → keepsCache (if b then m1 else m2).
Proof. by destruct b. Qed.

Ltac keepsCache_tac :=
  repeat first
    [ apply keepsCache_ret
    | apply keepsCache_call
    | apply keepsCache_setBuiltImages
    | apply keepsCache_bind; [| intros ?]
    | apply keepsCache_if
    | match goal with
      | |- keepsCache (match ?x with _ => _ end) => destruct x
      end ].

Lemma keepsCache_changeWorkingDirectory d :
  keepsCache (changeWorkingDirectory extern d).
Proof. unfold changeWorkingDirectory. keepsCache_tac. Qed.

Lemma keepsCache_buildImages skip opts d : keepsCache (buildImages extern skip opts d).
Proof. unfold buildImages. keepsCache_tac. Qed.

Lemma keepsCache_deferChdir {A} cwd (m : state (Env X) A) :
  keepsCache m → keepsCache (deferChdir extern cwd m).
Proof. intros H. unfold deferChdir. keepsCache_tac. exact H. Qed.

(** The cache after [prepare] went past the comparison of the hashes, for
    whatever runs next as long as it leaves the cache alone. *)
Lemma executes_cache {A} force d e (k : string * option error → state (Env X) A) :
  err (hashOf d e) = None →
  force = true ∨ text (hashOf d e) ≠ default "" (cache e !! id d) →
  (∀ p, keepsCache (k p)) →
  cache (bind (prepare extern force d) k e).1 = <[id d := text (hashOf d e)]> (cache e).
Proof.
  intros He Hf Hk. unfold bind at 1.
  rewrite (DepFacts.prepare_executes extern _ _ _ He Hf).
  pose proof (keepsCache_bind _ k (keepsCache_changeWorkingDirectory d) Hk) as Hkeep.
  unfold keepsCache, bind in Hkeep.
  set (e2 := (cacheSet (id d) (text (hashOf d e)) (hashed d e)).1) in *.
  specialize (Hkeep e2). destruct (changeWorkingDirectory extern d e2) as [e3 p].
  rewrite Hkeep. subst e2. simpl. by rewrite DepFacts.cache_hashed.
Qed.

(** When [Build] or [Deploy] goes past the comparison of the hashes (it is
    forced, or the hash differs from the recorded one), the cache holds
    the new hash when it returns, whatever it returns: also when the
    change of directory, the build or the deployment failed. *)
Theorem hash_recorded_whatever_follows (d : Dependency) (e : Env X) (opts : BuildOptions)
    (force skipBuild skipDeploy forceDeploy : bool) :
  err (hashOf d e) = None →
  force = true ∨ text (hashOf d e) ≠ default "" (cache e !! id d) →
  cache (Build extern force opts d e).1 = <[id d := text (hashOf d e)]> (cache e) ∧
  cache (Deploy extern force skipBuild skipDeploy forceDeploy opts d e).1
    = <[id d := text (hashOf d e)]> (cache e).
Proof.
  intros He Hf. split.
  - unfold Build. apply executes_cache; [done | done |].
    intros [cwd [e0|]]; [apply keepsCache_ret |].
    apply keepsCache_if; [apply keepsCache_ret |].
    apply keepsCache_deferChdir, keepsCache_bind; [apply keepsCache_buildImages |].
    intros [? [?|]]; apply keepsCache_ret.
  - unfold Deploy. apply executes_cache; [done | done |].
    intros [cwd [e0|]]; [apply keepsCache_ret |].
    apply keepsCache_if; [apply keepsCache_ret |].
    apply keepsCache_deferChdir. keepsCache_tac.
    all: try apply keepsCache_buildImages; keepsCache_tac.
Qed.

(** When the hashing of the directory fails, [Build] and [Deploy] return
    that error wrapped as "hash directory" right after the hashing call:
    the cache is not written, the directory is not changed, nothing is
    built or deployed. *)
Theorem hash_failure (d : Dependency) (e : Env X) (opts : BuildOptions)
    (force skipBuild skipDeploy forceDeploy : bool) (x : error) :
  err (hashOf d e) = Some x →
  prepare extern force d e = (hashed d e, ("", Some (Wrap x "hash directory"))) ∧
  Build extern force opts d e = (hashed d e, Some (Wrap x "hash directory")) ∧
  Deploy extern force skipBuild skipDeploy forceDeploy opts d e
    = (hashed d e, Some (Wrap x "hash directory")) ∧
  cache (hashed d e) = cache e ∧
  events (hashed d e) = events e ++ [Called (DepFacts.hashCall d)].
Proof.
  intros He.
  assert (prepare extern force d e = (hashed d e, ("", Some (Wrap x "hash directory"))))
    as Hp.
  { unfold prepare, bind, DepFacts.hashed, DepFacts.hashOf in *.
    fold (DepFacts.hashCall d) in *.
    destruct (call extern (DepFacts.hashCall d) e) as [e1 r]. simpl in *.
    by rewrite He. }
  split; [exact Hp |]. unfold Build, Deploy, bind. rewrite Hp.
  split; [done |]. split; [done |].
  split; [apply DepFacts.cache_hashed | apply DepFacts.events_hashed].
Qed.



(** [Purge] fails only when the working directory cannot be switched: it
    then returns that error wrapped as "getwd" and leaves the cache alone.
    Otherwise it returns nil, also when purging the deployments or saving
    fails, and the dependency has no cache entry any more while the other
    entries are as before. *)
Theorem Purge_result (d : Dependency) (e : Env X) :
  match (changeWorkingDirectory extern d e).2.2 with
  | Some x =>
      Purge extern d e = ((changeWorkingDirectory extern d e).1, Some (Wrap x "getwd")) ∧
      cache (Purge extern d e).1 = cache e
  | None =>
      (Purge extern d e).2 = None ∧
      cache (Purge extern d e).1 = delete (id d) (cache e)
  end.
Proof.
  pose proof (keepsCache_changeWorkingDirectory d e) as Hc.
  unfold Purge, bind.
  destruct (changeWorkingDirectory extern d e) as [e1 [cwd [x|]]]; simpl in *.
  - by split.
  - unfold deferChdir, bind, ret, cacheDelete.
    repeat
      (match goal with
       | |- context [call extern ?c ?env] =>
           let H := fresh "H" in
           pose proof (DepFacts.cache_call extern c env) as H;
           destruct (call extern c env); simpl in H
       | |- context [if hasGenerated d then _ else _] => destruct (hasGenerated d)
       end; simpl).
    all: split; [done | congruence].
Qed.

End WithOutside.
End DepMore.

(** ** More about the entry points *)

Module ManagerMore.
Import Dep Orchestrator Manager.

Section WithOutside.

Context {X : Type}.
Variable extern : Call → X → X * Reply.
Variable Resolve : bool → state (Env X) (graph Dependency + error).
Variable pluginHook : string → string → Dependency → state (Env X) (option error).
Variable logStream : Dependency → Env X → string.
Variable executeHooks :
  string → option (list Dependency) → option error → state (Env X) (option error).
Variable NumCPU : Z.
Variable fuel : nat.

(** An entry point that returns an error returns a nil list with it. *)
Theorem error_with_nil_list (m : manager) (sched : list nat) (w w1 : Env X)
    (l : option (list Dependency)) (x : error) :
  (∀ options, ResolveAll Resolve pluginHook logStream NumCPU fuel m options sched w
              = Some (w1, (l, Some x)) → l = None) ∧
  (∀ options, BuildAll extern Resolve pluginHook logStream NumCPU fuel m options sched w
              = Some (w1, (l, Some x)) → l = None) ∧
  (∀ options, DeployAll extern Resolve pluginHook logStream executeHooks NumCPU fuel m
                options sched w
              = Some (w1, (l, Some x)) → l = None) ∧
  (∀ options, PurgeAll extern Resolve pluginHook logStream NumCPU fuel m options sched w
              = Some (w1, (l, Some x)) → l = None) ∧
  (∀ options, RenderAll extern Resolve pluginHook logStream NumCPU fuel m options sched w
              = Some (w1, (l, Some x)) → l = None).
Proof.
  split; [| split; [| split; [| split]]]; intros options.
  - unfold ResolveAll, handle.
    destruct (handleDependencies _ _ _ _ _ _ _ _ _ _ _ _ _ _ _ _)
      as [[w2 [l2 [e2|]]] |]; [| | done]; by intros [=].
  - unfold BuildAll, handle. apply OrchestratorMore.handleDependencies_error_nil.
  - unfold DeployAll, handle.
    destruct (executeHooks "before:deployDependencies" None None w) as [wa [e|]];
      [by intros [=] |].
    destruct (handleDependencies _ _ _ _ _ _ _ _ _ _ _ _ _ _ _ _)
      as [[w2 [l2 [e2|]]] |]; [| | done].
    + destruct (executeHooks "error:deployDependencies" _ _ w2) as [wb [e|]];
        by intros [=].
    + destruct (executeHooks "after:deployDependencies" _ _ w2) as [wb [e|]];
        by intros [=].
  - unfold PurgeAll, handle. apply OrchestratorMore.handleDependencies_error_nil.
  - unfold RenderAll, handle. apply OrchestratorMore.handleDependencies_error_nil.
Qed.

(** When the resolver fails, [Command] does not return the resolver's
    error: no dependency was found, so it returns "couldn't find
    dependency" with the name it was asked for. *)
Theorem Command_hides_resolver_error (m : manager) (options : CommandOptions)
    (sched : list nat) (w : Env X) (x : error) :
  noDependencies m = false →
  (Resolve (co_UpdateDependencies options) w).2 = inr x →
  Command extern Resolve pluginHook logStream NumCPU fuel m options sched w
  = Some ((Resolve (co_UpdateDependencies options) w).1,
          Some (Errorf ("couldn't find dependency " +:+ co_Dependency options))).
Proof.
  intros Hm Hr. unfold Command, handleDependencies, beside. rewrite Hm.
  destruct (Resolve (co_UpdateDependencies options) w) as [w0 [g0 | err]];
    simpl in Hr; [done |]. reflexivity.
Qed.

(** When no node of the resolved graph carries the name [Command] was
    asked for, its callback is never called: at every point of the run no
    node has been acted on, nothing is in the executed list, and the world
    and [found] are as the resolver left them.  So [Command] returns
    "couldn't find dependency" with that name, and the world of the
    resolver. *)
Theorem Command_unknown_name (m : manager) (options : CommandOptions)
    (sched : list nat) (w : Env X) (g0 : graph Dependency) :
  noDependencies m = false →
  (Resolve (co_UpdateDependencies options) w).2 = inl g0 →
  (∀ k n, Nodes g0 !! k = Some n → Name (Graph.Dependency n) ≠ co_Dependency options) →
  let w0 := (Resolve (co_UpdateDependencies options) w).1 in
  let work :=
    runWork (λ ev extra d, beside (pluginHook ev extra d))
      (λ (d : Dependency) '((e, _) : Env X * bool), logStream d e)
      [] [co_Dependency options] false (co_Verbose options) "Command"
      (commandAction extern options) in
  let st :=
    Scheduler.shared
      (Scheduler.exec work (scheduler NumCPU fuel false 1) sched
         (Scheduler.start (scheduler NumCPU fuel false 1) (initial g0 (w0, false)))) in
  acted st = [] ∧
  executedDependencies st = [] ∧
  world st = (w0, false) ∧
  ∀ r, Command extern Resolve pluginHook logStream NumCPU fuel m options sched w = Some r →
       r = (w0, Some (Errorf ("couldn't find dependency " +:+ co_Dependency options))).
Proof.
  intros Hm Hr Hname w0 work st.
  assert (∀ p,
            OrchestratorFacts.coherent g0 p →
            acted (Scheduler.shared p) = [] ∧
            executedDependencies (Scheduler.shared p) = [] ∧
            world (Scheduler.shared p) = (w0, false) →
            let q := Scheduler.exec work (scheduler NumCPU fuel false 1) sched p in
            acted (Scheduler.shared q) = [] ∧
            executedDependencies (Scheduler.shared q) = [] ∧
            world (Scheduler.shared q) = (w0, false)) as Hinv.
  { unfold Scheduler.exec.
    induction sched as [| i sched IH]; intros p Hc Hq; [done |].
    simpl. apply IH.
    - eapply OrchestratorFacts.coherent_step; first [exact Hc | reflexivity].
    - unfold Scheduler.step.
      destruct (Scheduler.workers p !! i) as [[| n | e] |] eqn:Hw; [| | done | done].
      + cbn [Scheduler.next Orchestrator.scheduler Scheduler.NewScheduler].
        unfold provide.
        by destruct (nextNode fuel false _ _) as [[v [[n|] [e|]]] |].
      + destruct Hc as [_ Hp].
        destruct (OrchestratorFacts.pe_held _ _ _ Hp i n Hw)
          as (_ & _ & k0 & n0 & Hn0 & _ & Hdep).
        assert (foundDependency (Name (Graph.Dependency n)) [co_Dependency options]
                = false) as Hf.
        { unfold foundDependency. simpl. rewrite <- Hdep.
          rewrite bool_decide_false; [done |]. intros Heq.
          by apply (Hname k0 n0 Hn0). }
        subst work. unfold runWork, performAction, bind, ret. rewrite Hf.
        by destruct (bool_decide (Graph.ID n = _)). }
  assert (acted st = [] ∧ executedDependencies st = [] ∧ world st = (w0, false))
    as (Ha & He & Hw).
  { apply Hinv; [apply OrchestratorFacts.coherent_start | done]. }
  split; [exact Ha |]. split; [exact He |]. split; [exact Hw |].
  intros r. unfold Command, handleDependencies. rewrite Hm.
  change (beside (Resolve (co_UpdateDependencies options)) (w, false))
    with (let '(e1, a) := Resolve (co_UpdateDependencies options) w in
          ((e1, false), a)).
  subst st work w0.
  destruct (Resolve (co_UpdateDependencies options) w) as [w1 [g1 | err]];
    simpl in Hr; [| done]. injection Hr as ->. simpl in Hw.
  unfold Scheduler.Run. destruct (Scheduler.drained _); [| done].
  destruct (Scheduler.groupErr _) as [e|]; rewrite Hw; simpl; by intros [= <-].
Qed.

End WithOutside.
End ManagerMore.

(** ** The tests of the repository, replayed on the model *)

Module Replay.
Import Graph.

(** graph_test.go: the paths found, the leaf, the failing edges, the
    searches that stop at the sixth visit, and the pruning loop. *)
Example findFirstPath_unreachable :
  findFirstPath TestGraph.fuel TestGraph.testGraph "rootChild1" "rootChild2" = Some None.
Proof. by vm_compute. Qed.

Example findFirstPath_reachable :
  findFirstPath TestGraph.fuel TestGraph.testGraph "root" "rootChild2Child1Child1"
  = Some (Some ["root"; "rootChild2"; "rootChild2Child1"; "rootChild2Child1Child1"]).
Proof. by vm_compute. Qed.

Example insert_without_parent :
  ∃ e, insertNodeAt TestGraph.fuel "does not exits" "rootChild1" tt
         (newGraph (newNode "root" tt))
       = Some (newGraph (newNode "root" tt), (None, Some e)).
Proof. by eexists. Qed.

Example cyclic_message :
  match insertNodeAt TestGraph.fuel "rootChild2Child1Child1" "rootChild3" tt
          TestGraph.testGraph with
  | Some (_, (_, Some e)) => error_Error e
  | _ => ""
  end
  = "Cyclic dependency found: " +:+ newline +:+
    "rootChild2Child1Child1" +:+ newline +:+ "rootChild3" +:+ newline +:+
    "rootChild2" +:+ newline +:+ "rootChild2Child1" +:+ newline +:+
    "rootChild2Child1Child1".
Proof. by vm_compute. Qed.

Example first_leaf :
  ID <$> default None (getNextLeaf TestGraph.fuel TestGraph.testGraph "root")
  = Some "rootChild1".
Proof. by vm_compute. Qed.

Example addEdge_missing :
  is_Some (addEdge "NotThere" "rootChild1" TestGraph.testGraph).2 ∧
  is_Some (addEdge "rootChild1" "NotThere" TestGraph.testGraph).2.
Proof. split; by eexists. Qed.

(** A visitor that stops at its sixth visit. *)
Example sixth_visit :
  let sixth : @visitor unit nat := λ _ count, (S count, (bool_decide (count = 5), None)) in
  (ID <$> (default (0, (None, None))
             (preOrderSearch TestGraph.fuel TestGraph.testGraph "root" sixth 0)).2.1
   = Some "rootChild3") ∧
  (ID <$> (default (0, (None, None))
             (postOrderSearch TestGraph.fuel TestGraph.testGraph "root" sixth 0)).2.1
   = Some "rootChild2Child1").
Proof. split; by vm_compute. Qed.

(** The pruning loop of the test: the next leaf is removed until no node
    but the root is left. *)
Fixpoint prune (rounds : nat) (g : graph unit) : list string :=
  match rounds with
  | 0 => []
  | S rounds' =>
      if bool_decide (len g = 0) then []
      else
        match getNextLeaf TestGraph.fuel g (Root g) with
        | Some (Some curr) => ID curr :: prune rounds' (removeNode (ID curr) g)
        | _ => []
        end
  end.

Example prune_order :
  len TestGraph.testGraph = 5 ∧
  prune 10 TestGraph.testGraph
  = ["rootChild1"; "rootChild2Child1Child1"; "rootChild2Child1"; "rootChild2";
     "rootChild3"].
Proof. split; by vm_compute. Qed.

(** scheduler_test.go, under one interleaving of the goroutines. *)
Example TestRun :
  ∃ results,
    Scheduler.Run TestRun.record (Scheduler.NewScheduler 2 TestRun.nextItem)
      TestRun.alternate (TestRun.work, [])
    = Some (([], results), None) ∧ length results = 5.
Proof. eexists. split; [by vm_compute | done]. Qed.

Example TestRunLess :
  ∃ results,
    Scheduler.Run TestRun.record (Scheduler.NewScheduler 5 TestRun.nextItem)
      [0; 1; 2; 3; 4; 0; 1; 0; 1] (["one"; "two"], [])
    = Some (([], results), None) ∧ length results = 2.
Proof. eexists. split; [by vm_compute | done]. Qed.

Example TestRunWorkErrors :
  snd <$> Scheduler.Run TestRun.recordOrFail (Scheduler.NewScheduler 2 TestRun.nextItem)
            TestRun.alternate (TestRun.work, [])
  = Some (Some TestRun.expectedErr).
Proof. by vm_compute. Qed.

Example TestRunLookupWorkErrors :
  snd <$> Scheduler.Run TestRun.record (Scheduler.NewScheduler 2 TestRun.nextItemOrError)
            TestRun.alternate (TestRun.work, [])
  = Some (Some TestRun.expectedErr).
Proof. by vm_compute. Qed.

End Replay.

(** ** The statements at concrete inputs *)

Module Witnesses.
Import Graph Dep Orchestrator.

Lemma testGraph_keyed : keyed TestGraph.testGraph.
Proof. unfold keyed. apply (bool_decide_unpack _). by vm_compute. Defined.

Lemma testGraph_ranked : ranked TestGraph.rank TestGraph.testGraph.
Proof. unfold ranked. apply (bool_decide_unpack _). by vm_compute. Defined.

Lemma tree_keyed : keyed Example.tree.
Proof. unfold keyed. apply (bool_decide_unpack _). by vm_compute. Defined.

Lemma tree_ranked : ranked Example.rank Example.tree.
Proof. unfold ranked. apply (bool_decide_unpack _). by vm_compute. Defined.

(** The walk of the test from rootChild3 down to rootChild2Child1Child1. *)
Lemma testGraph_walk :
  walk TestGraph.testGraph "rootChild3"
    ["rootChild3"; "rootChild2"; "rootChild2Child1"; "rootChild2Child1Child1"].
Proof.
  eapply (walk_cons _ _ _ "rootChild2"); [by vm_compute | apply list_elem_of_here |].
  eapply (walk_cons _ _ _ "rootChild2Child1");
    [by vm_compute | apply list_elem_of_here |].
  eapply (walk_cons _ _ _ "rootChild2Child1Child1");
    [by vm_compute | apply list_elem_of_here |].
  eapply walk_one. by vm_compute.
Defined.

(** C2 at the graph of the test. *)
Lemma traversal_orders_witness :
  ∃ pre post,
    preOrder TestGraph.fuel TestGraph.testGraph "root" = Some pre ∧
    postOrder TestGraph.fuel TestGraph.testGraph "root" = Some post ∧
    post ≡ₚ pre.
Proof.
  destruct (proj2 (proj2 GraphFacts.traversal_orders) unit TestGraph.testGraph
              TestGraph.rank TestGraph.fuel "root" testGraph_keyed testGraph_ranked)
    as (pre & post & H1 & H2 & _ & H4 & _).
  - apply Nat.ltb_lt. by vm_compute.
  - exists pre, post. split; [exact H1 | split; [exact H2 | exact H4]].
Defined.

(** C5 at the failing insertion of the test: the cycle and the text the
    test expects. *)
Lemma insertNodeAt_cycle_witness :
  insertNodeAt TestGraph.fuel "rootChild2Child1Child1" "rootChild3" tt
    TestGraph.testGraph
  = Some (TestGraph.testGraph,
          (None, Some (CyclicError ["rootChild2Child1Child1"; "rootChild3";
                                    "rootChild2"; "rootChild2Child1";
                                    "rootChild2Child1Child1"]))) ∧
  error_Error (CyclicError ["rootChild2Child1Child1"; "rootChild3"; "rootChild2";
                            "rootChild2Child1"; "rootChild2Child1Child1"])
  = "Cyclic dependency found: " +:+ "
rootChild2Child1Child1
rootChild3
rootChild2
rootChild2Child1
rootChild2Child1Child1".
Proof.
  destruct (GraphFacts.insertNodeAt_cycle TestGraph.rank TestGraph.testGraph
              TestGraph.fuel "rootChild2Child1Child1" "rootChild3" tt
              ["rootChild3"; "rootChild2"; "rootChild2Child1"; "rootChild2Child1Child1"])
    as (p & Hf & Hins & _ & _ & _ & Hmsg).
  - exact testGraph_ranked.
  - apply Nat.ltb_lt. by vm_compute.
  - exact testGraph_walk.
  - reflexivity.
  - assert (findFirstPath TestGraph.fuel TestGraph.testGraph "rootChild3"
              "rootChild2Child1Child1"
            = Some (Some ["rootChild3"; "rootChild2"; "rootChild2Child1";
                          "rootChild2Child1Child1"])) as Hp by (by vm_compute).
    rewrite Hp in Hf. injection Hf as <-.
    split; [exact Hins | exact Hmsg].
Defined.

(** C6 at dep-a: with the current hash recorded [Build] stops after the
    hashing call; with an old hash recorded the new one is written first. *)
Lemma change_detection_witness :
  Build Example.extern false Example.buildOptions Example.depA Example.envUnchanged
    = (DepFacts.hashed Example.extern Example.depA Example.envUnchanged, None) ∧
  ∃ rest,
    events (Build Example.extern false Example.buildOptions Example.depA
              Example.envChanged).1
    = events Example.envChanged ++
      [Called (DepFacts.hashCall Example.depA); CacheSet "dep-a" "h1"] ++ rest.
Proof.
  split.
  - apply (DepFacts.change_detection Example.extern Example.depA Example.envUnchanged
             Example.buildOptions false false false Example.commandOptions false);
      reflexivity.
  - apply (DepFacts.change_detection Example.extern Example.depA Example.envChanged
             Example.buildOptions false false false Example.commandOptions false
             eq_refl).
    right. by vm_compute.
Defined.

(** C1 as stated fails on the purge of the example: the provider hands out
    dep-a, and after its work closure has run dep-a is still registered and
    still the child of the root. *)
Lemma reverse_work_keeps_node :
  match provide Example.fuel true Example.purgeStart with
  | Some (st1, (Some n, None)) =>
      let st2 :=
        (runWork Example.pluginHook Example.logStream [] [] true false "Purge"
           (Purge Example.extern) n st1).1 in
      Graph.ID n = "dep-a" ∧
      ¬ (Nodes (dependencyTree st2) !! "dep-a" = None) ∧
      childs <$> Nodes (dependencyTree st2) !! "root" = Some ["dep-a"]
  | _ => False
  end.
Proof. vm_compute. split; [reflexivity |]. split; [discriminate | reflexivity]. Qed.

(** C1, as the code has it, at the start of the purge of the example. *)
Lemma reverse_provider_witness :
  let g := dependencyTree Example.purgeStart in
  ∃ pre,
    preOrder Example.fuel g (Graph.Root g) = Some pre ∧
    match find (OrchestratorFacts.eligible g (visited Example.purgeStart)) pre with
    | Some x =>
        ∃ n, Nodes g !! x = Some n ∧ Graph.ID n = x ∧
             provide Example.fuel true Example.purgeStart
               = Some (hand x (withVisited (<[x := x]> (visited Example.purgeStart))
                                 Example.purgeStart),
                       (Some n, None)) ∧
             (∀ s, runWork Example.pluginHook Example.logStream [] [] true false
                     "Purge" (Purge Example.extern) n s
                   = performAction Example.pluginHook Example.logStream [] []
                       false "Purge" (Purge Example.extern) n s) ∧
             (∀ s, dependencyTree
                     (runWork Example.pluginHook Example.logStream [] [] true false
                        "Purge" (Purge Example.extern) n s).1
                   = dependencyTree s)
    | None => provide Example.fuel true Example.purgeStart
              = Some (Example.purgeStart, (None, None))
    end.
Proof.
  apply (OrchestratorFacts.reverse_provider Example.pluginHook Example.logStream
           Example.fuel [] [] false "Purge" (Purge Example.extern) Example.rank
           Example.purgeStart).
  - exact tree_keyed.
  - exact tree_ranked.
  - apply Nat.ltb_lt. by vm_compute.
Defined.




(** C8 as stated fails for [Command]: without a configuration it returns
    an error. *)
Lemma Command_without_config :
  Manager.Command Example.extern Example.Resolve Example.pluginHook
    Example.logStream Example.NumCPU Example.fuel Example.noConfig
    Example.commandOptions [] Example.envUnchanged
  = Some (Example.envUnchanged, Some (Errorf "couldn't find dependency a")).
Proof. reflexivity. Qed.

(** C8, as the code has it, for a manager without a configuration. *)
Lemma absent_config_witness :
  Manager.UpdateAll Example.Resolve Example.ansiColor Example.noConfig
    Example.envUnchanged = (Example.envUnchanged, None) ∧
  Manager.PurgeAll Example.extern Example.Resolve Example.pluginHook
    Example.logStream Example.NumCPU Example.fuel Example.noConfig
    {| Manager.po_SkipDependencies := []; Manager.po_Dependencies := [];
       Manager.po_Verbose := false |} [] Example.envUnchanged
  = Some (Example.envUnchanged, (None, None)).
Proof.
  pose proof (ManagerFacts.absent_config Example.extern Example.Resolve
                Example.pluginHook Example.logStream Example.executeHooks
                Example.ansiColor Example.NumCPU Example.fuel Example.noConfig []
                Example.envUnchanged (or_introl eq_refl))
    as (_ & HU & _ & _ & HP & _).
  split; [exact HU | apply HP].
Defined.

End Witnesses.

(** ** The further statements at concrete inputs *)

Module MoreWitnesses.
Import Graph Dep Orchestrator.

(** A forward call on the example: b is built, then a; the list returned
    holds the root dependency a. *)
Lemma handleDependencies_result_witness :
  ∃ w1 deps,
    handleDependencies Example.Resolve Example.pluginHook Example.logStream
      Example.NumCPU Example.fuel [] [] false false "Build"
      (Build Example.extern false Example.buildOptions) Example2.someConfig false 1
      Example2.alone Example.envChanged
    = Some (w1, (Some deps, None)) ∧
    Forall (λ d, Root d = true) deps.
Proof.
  destruct (handleDependencies Example.Resolve Example.pluginHook Example.logStream
              Example.NumCPU Example.fuel [] [] false false "Build"
              (Build Example.extern false Example.buildOptions) Example2.someConfig
              false 1 Example2.alone Example.envChanged)
    as [[w1 [[deps|] [e|]]] |] eqn:E;
    try (exfalso; vm_compute in E; discriminate E).
  exists w1, deps. split; [reflexivity |].
  by destruct (proj2 (OrchestratorMore.handleDependencies_result Example.Resolve
                        Example.pluginHook Example.logStream Example.NumCPU
                        Example.fuel [] [] false "Build"
                        (Build Example.extern false Example.buildOptions) false
                        Example2.someConfig false 1 Example2.alone Example.envChanged
                        w1 (Some deps) None E) deps eq_refl) as (_ & _ & H & _).
Defined.

Lemma negative_concurrency_witness :
  handleDependencies Example.Resolve Example.pluginHook Example.logStream
    Example.NumCPU Example.fuel [] [] false false "Build"
    (Build Example.extern false Example.buildOptions) Example2.someConfig false (-1)
    Example2.alone Example.envChanged
  = Some (Example.envChanged, (Some [], None)).
Proof.
  apply (OrchestratorMore.negative_concurrency Example.Resolve Example.pluginHook
           Example.logStream Example.NumCPU Example.fuel [] [] false "Build"
           (Build Example.extern false Example.buildOptions) false
           Example2.someConfig false (-1) Example2.alone Example.envChanged
           Example.tree); [lia | reflexivity | reflexivity].
Defined.

(** The build of the example by one goroutine. *)
Lemma forward_children_first_witness :
  (∀ l1 a l2 m0 b, acted Example2.unraced = l1 ++ a :: l2 →
                   Nodes Example.tree !! a = Some m0 → b ∈ childs m0 → b ∉ l2) ∧
  (∀ a m0 b, a ∈ handed Example2.unraced → Nodes Example.tree !! a = Some m0 →
             b ∈ childs m0 →
             Nodes (dependencyTree Example2.unraced) !! b = None).
Proof.
  apply (ForwardOrder.forward_children_first Example.pluginHook Example.logStream
           Example.NumCPU Example.fuel [] [] false "Build"
           (Build Example.extern false Example2.oneBuild) 1 Example.tree
           Example.envChanged Example2.alone eq_refl).
  exact Witnesses.tree_keyed.
Defined.

(** Purging the example with one goroutine: a is taken, then its child b. *)
Lemma reverse_parents_first_witness :
  handed
    (Scheduler.shared
       (Scheduler.exec
          (runWork Example.pluginHook Example.logStream [] [] true false "Purge"
             (Purge Example.extern))
          (scheduler Example.NumCPU Example.fuel true 1) Example2.alone
          (Scheduler.start (scheduler Example.NumCPU Example.fuel true 1)
             (initial Example.tree Example.envChanged))))
  = ["dep-a"; "dep-b"] ∧
  ∃ a n, Nodes Example.tree !! a = Some n ∧ "dep-b" ∈ childs n ∧
         (a = Graph.Root Example.tree ∨ a ∈ ["dep-a"]).
Proof.
  assert (handed
            (Scheduler.shared
               (Scheduler.exec
                  (runWork Example.pluginHook Example.logStream [] [] true false "Purge"
                     (Purge Example.extern))
                  (scheduler Example.NumCPU Example.fuel true 1) Example2.alone
                  (Scheduler.start (scheduler Example.NumCPU Example.fuel true 1)
                     (initial Example.tree Example.envChanged))))
          = ["dep-a"] ++ "dep-b" :: []) as E by (by vm_compute).
  split; [exact E |].
  exact (ReverseOrder.reverse_parents_first Example.pluginHook Example.logStream
           Example.NumCPU Example.fuel [] [] false "Purge" (Purge Example.extern) 1
           Example.tree Witnesses.tree_keyed Example.envChanged Example2.alone
           ["dep-a"] "dep-b" [] E).
Defined.

Lemma Run_final_witness :
  Scheduler.Run TestRun.record (Scheduler.NewScheduler 2 TestRun.nextItem)
    (TestRun.alternate ++ [1; 0; 1]) (TestRun.work, [])
  = Some (([], ["one"; "two"; "four"; "three"; "five"]), None).
Proof.
  apply (SchedulerMore.Run_final TestRun.record
           (Scheduler.NewScheduler 2 TestRun.nextItem) TestRun.alternate [1; 0; 1]
           (TestRun.work, [])).
  by vm_compute.
Defined.

Lemma hash_recorded_whatever_follows_witness :
  cache (Build Example.extern false Example.buildOptions Example.depA
           Example.envChanged).1
  = <[ "dep-a" := "h1" ]> (cache Example.envChanged).
Proof.
  apply (DepMore.hash_recorded_whatever_follows Example.extern Example.depA
           Example.envChanged Example.buildOptions false false false false eq_refl).
  right. by vm_compute.
Defined.

Lemma hash_failure_witness :
  Build Example2.failingExtern false Example.buildOptions Example.depA
    Example.envChanged
  = (DepFacts.hashed Example2.failingExtern Example.depA Example.envChanged,
     Some (Wrap Example2.hashError "hash directory")).
Proof.
  apply (DepMore.hash_failure Example2.failingExtern Example.depA Example.envChanged
           Example.buildOptions false false false false Example2.hashError eq_refl).
Defined.


(** A failing resolver: [BuildAll] returns an error and a nil list. *)
Lemma error_with_nil_list_witness :
  ∃ w1 x,
    Manager.BuildAll Example.extern Example2.failingResolve Example.pluginHook
      Example.logStream Example.NumCPU Example.fuel Example2.someConfig
      Example2.buildAllOptions Example2.alone Example.envChanged
    = Some (w1, (None, Some x)).
Proof.
  destruct (Manager.BuildAll Example.extern Example2.failingResolve Example.pluginHook
              Example.logStream Example.NumCPU Example.fuel Example2.someConfig
              Example2.buildAllOptions Example2.alone Example.envChanged)
    as [[w1 [l [x|]]] |] eqn:E; try (exfalso; vm_compute in E; discriminate E).
  exists w1, x.
  by rewrite (proj1 (proj2 (ManagerMore.error_with_nil_list Example.extern
                              Example2.failingResolve Example.pluginHook
                              Example.logStream Example.executeHooks Example.NumCPU
                              Example.fuel Example2.someConfig Example2.alone
                              Example.envChanged w1 l x))
                Example2.buildAllOptions E).
Defined.

Lemma Command_hides_resolver_error_witness :
  Manager.Command Example.extern Example2.failingResolve Example.pluginHook
    Example.logStream Example.NumCPU Example.fuel Example2.someConfig
    Example.commandOptions Example2.alone Example.envChanged
  = Some (Example.envChanged, Some (Errorf "couldn't find dependency a")).
Proof.
  apply (ManagerMore.Command_hides_resolver_error Example.extern
           Example2.failingResolve Example.pluginHook Example.logStream
           Example.NumCPU Example.fuel Example2.someConfig Example.commandOptions
           Example2.alone Example.envChanged Example2.resolveError eq_refl eq_refl).
Defined.

Lemma tree_names k n :
  Nodes Example.tree !! k = Some n → Name (Graph.Dependency n) ≠ "zzz".
Proof.
  intros H.
  assert (map_Forall (λ _ n, Name (Graph.Dependency n) ≠ "zzz") (Nodes Example.tree))
    as Hall by (apply (bool_decide_unpack _); by vm_compute).
  exact (Hall k n H).
Defined.

Lemma Command_unknown_name_witness :
  Manager.Command Example.extern Example.Resolve Example.pluginHook
    Example.logStream Example.NumCPU Example.fuel Example2.someConfig
    Example2.unknownCommand Example2.alone Example.envChanged
  = Some (Example.envChanged, Some (Errorf "couldn't find dependency zzz")).
Proof.
  destruct (Manager.Command Example.extern Example.Resolve Example.pluginHook
              Example.logStream Example.NumCPU Example.fuel Example2.someConfig
              Example2.unknownCommand Example2.alone Example.envChanged)
    as [r|] eqn:E; [| exfalso; vm_compute in E; discriminate E].
  f_equal.
  destruct (ManagerMore.Command_unknown_name Example.extern Example.Resolve
              Example.pluginHook Example.logStream Example.NumCPU Example.fuel
              Example2.someConfig Example2.unknownCommand Example2.alone
              Example.envChanged Example.tree eq_refl eq_refl tree_names)
    as (_ & _ & _ & H).
  exact (H r E).
Defined.

End MoreWitnesses.
